(** * tsh: the job table and the job-control paths of the tiny shell

    A shallow embedding of [tshlab-handout/mytest/online.c].  The job list
    is the C array [job_list[MAXJOBS]] read as a list that is looked up and
    updated by index; the globals [nextjid] and [verbose] travel with it in
    one record.  Every C [int] and [pid_t] is a [Z]: the only arithmetic
    the program does on them is adding one to a job id and negating a pid,
    and lemma [run_jid_bound] below shows that a job id reaches [n] only
    after [n] calls, so the values stay far inside the range of [int].
    What the program prints and which signals it sends is kept as a trace
    of events in program order; what the operating system answers is a
    parameter of the section. *)

From Stdlib Require Import ZArith Ascii String DecimalString Lia.
From stdpp Require Import base list strings.

Open Scope Z_scope.

(** ** Constants of the source *)

Definition MAXJOBS : nat := 16.   (* max jobs at any point in time *)

Definition UNDEF : Z := 0.        (* undefined *)
Definition FG : Z := 1.           (* running in foreground *)
Definition BG : Z := 2.           (* running in background *)
Definition ST : Z := 3.           (* stopped *)

Definition STDOUT_FILENO : Z := 1.
Definition EXIT_FAILURE : Z := 1.

(** ** Data *)

Record job_t := mkjob {
  pid : Z;            (* job PID *)
  jid : Z;            (* job ID [1, 2, ...] *)
  state : Z;          (* UNDEF, BG, FG, or ST *)
  cmdline : string    (* command line *)
}.

(** The globals the job-control code reads and writes. *)
Record globals := mkglobals {
  verbose : bool;           (* if true, print additional output *)
  nextjid : Z;              (* next job ID to allocate *)
  job_list : list job_t     (* the job list *)
}.

Inductive builtins_t :=
  BUILTIN_NONE | BUILTIN_QUIT | BUILTIN_JOBS | BUILTIN_BG | BUILTIN_FG.

Record cmdline_tokens := mktok {
  argc : Z;                  (* number of arguments *)
  argv : list string;        (* the arguments list *)
  infile : option string;    (* the input file, NULL when absent *)
  outfile : option string;   (* the output file, NULL when absent *)
  builtins : builtins_t
}.

(** The signals the program names. *)
Inductive signal := SIGINT | SIGTSTP | SIGCONT | SIGQUIT | SIGCHLD | SIGTTIN | SIGTTOU.

(** The status word that [waitpid] stores, decoded: the [W...] macros of
    [<sys/wait.h>] are its projections.  [WOther] is a status for which
    none of the three tests of the handler holds. *)
Inductive wstatus :=
| WExited (code : Z)
| WStopped (sig : Z)
| WSignaled (sig : Z)
| WOther.

Definition WIFEXITED (s : wstatus) : bool := match s with WExited _ => true | _ => false end.
Definition WIFSTOPPED (s : wstatus) : bool := match s with WStopped _ => true | _ => false end.
Definition WIFSIGNALED (s : wstatus) : bool := match s with WSignaled _ => true | _ => false end.
Definition WSTOPSIG (s : wstatus) : Z := match s with WStopped n => n | _ => 0 end.
Definition WTERMSIG (s : wstatus) : Z := match s with WSignaled n => n | _ => 0 end.

(** What the program does to the outside, in program order. *)
Inductive event :=
| Stdout (text : string)              (* printf / fprintf(stdout, ...) *)
| Stderr (text : string)              (* fprintf(stderr, ...) / perror *)
| FdWrite (fd : Z) (text : string)    (* write(fd, buf, strlen(buf)) *)
| FdClose (fd : Z)                    (* close(fd) *)
| Kill (target : Z) (sig : signal)    (* kill(target, sig) *)
| Dup2 (oldfd newfd : Z)
| Setpgid
| Unblock                             (* sigprocmask(SIG_UNBLOCK, &mask, NULL) *)
| SignalDfl (sig : signal).           (* Signal(sig, SIG_DFL) *)

(** How a piece of code leaves. *)
Inductive outcome :=
| Returned                 (* return to the caller *)
| Exited (status : Z)      (* exit(status) *)
| Fault                    (* a NULL pointer is dereferenced *)
| Spin                     (* while (fgpid(job_list) != 0) ; with a foreground job *)
| Execed (path : string) (args : list string).   (* execve replaced the image *)

(** The newline character of the format strings. *)
Definition NL : string := String (Ascii.ascii_of_nat 10) "".

(** [%d] of [printf]. *)
Definition fmt_d (z : Z) : string := NilZero.string_of_int (Z.to_int z).

(** ** Helper routines that manipulate the job list *)

(** The loop the helpers share,
    [for (i = 0; i < MAXJOBS; i++) if (P(job_list[i])) ...]:
    the first index in [i, i+n) whose slot satisfies [P], with the slot.
    The array has [MAXJOBS] slots; on a shorter list the loops of this
    file stop at its end, and the statements below say where they need the
    full length. *)
Fixpoint scan_from (P : job_t -> bool) (jl : list job_t) (i n : nat)
  : option (nat * job_t) :=
  match n with
  | O => None
  | S n' =>
      match jl !! i with
      | Some j => if P j then Some (i, j) else scan_from P jl (S i) n'
      | None => None
      end
  end.

Definition scan (P : job_t -> bool) (jl : list job_t) : option (nat * job_t) :=
  scan_from P jl 0 MAXJOBS.

(** clearjob - Clear the entries in a job struct *)
Definition clearjob (job : job_t) : job_t :=
  {| pid := 0; jid := 0; state := UNDEF; cmdline := "" |}.

(** initjobs - Initialize the job list *)
Fixpoint initjobs_from (jl : list job_t) (i n : nat) : list job_t :=
  match n with
  | O => jl
  | S n' => initjobs_from (alter clearjob i jl) (S i) n'
  end.

Definition initjobs (jl : list job_t) : list job_t := initjobs_from jl 0 MAXJOBS.

(** maxjid - Returns largest allocated job ID *)
Fixpoint maxjid_from (jl : list job_t) (i n : nat) (max : Z) : Z :=
  match n with
  | O => max
  | S n' =>
      match jl !! i with
      | Some j => maxjid_from jl (S i) n' (if jid j >? max then jid j else max)
      | None => max
      end
  end.

Definition maxjid (jl : list job_t) : Z := maxjid_from jl 0 MAXJOBS 0.

#[global] Instance job_t_inhabited : Inhabited job_t :=
  populate {| pid := 0; jid := 0; state := 0; cmdline := "" |}.

Section Shell.

Set Default Proof Using "Type".

(** The operating system and the C library, as far as the code consults
    them: each is the value the call returns. *)
Variable getpgid : Z -> Z.                    (* getpgid(pid) *)
Variable atoi : string -> Z.                  (* atoi(s) *)
Variable strerror_errno : string.             (* strerror(errno) when an error is reported *)
Variable kill : Z -> signal -> Z.             (* kill(target, sig) *)
Variable write : list event -> Z -> string -> Z.
                                              (* write(fd, buf, strlen(buf)), given what happened so far *)
Variable open : string -> Z.                  (* open(path, ...) *)
Variable dup2 : Z -> Z -> Z.                  (* dup2(oldfd, newfd) *)
Variable execve_fails : string -> list string -> bool.
                                              (* execve returns (with -1) only when it fails *)

(** addjob - Add a job to the job list *)
Definition addjob (g : globals) (p : Z) (s : Z) (c : string)
  : Z * globals * list event :=
  if p <? 1 then (0, g, [])
  else
    match scan (fun j => pid j =? 0) (job_list g) with
    | Some (i, _) =>
        let j := {| pid := p; jid := nextjid g; state := s; cmdline := c |} in
        let n := nextjid g + 1 in
        let g' := {| verbose := verbose g;
                     nextjid := if n >? Z.of_nat MAXJOBS then 1 else n;
                     job_list := <[i := j]> (job_list g) |} in
        (1, g',
         if verbose g
         then [Stdout ("Added job [" +:+ fmt_d (jid j) +:+ "] " +:+ fmt_d (pid j)
                       +:+ " " +:+ fmt_d (getpgid (pid j)) +:+ " " +:+ cmdline j
                       +:+ NL)]
         else [])
    | None => (0, g, [Stdout ("Tried to create too many jobs" +:+ NL)])
    end.

(** deletejob - Delete a job whose PID=pid from the job list *)
Definition deletejob (g : globals) (p : Z) : Z * globals :=
  if p <? 1 then (0, g)
  else
    match scan (fun j => pid j =? p) (job_list g) with
    | Some (i, _) =>
        let jl := alter clearjob i (job_list g) in
        (1, {| verbose := verbose g; nextjid := maxjid jl + 1; job_list := jl |})
    | None => (0, g)
    end.

(** fgpid - Return PID of current foreground job, 0 if no such job *)
Definition fgpid (jl : list job_t) : Z :=
  match scan (fun j => state j =? FG) jl with
  | Some (_, j) => pid j
  | None => 0
  end.

(** getjobpid - Find a job (by PID) on the job list; the pointer it returns
    is the index of the slot, NULL is [None]. *)
Definition getjobpid (jl : list job_t) (p : Z) : option nat :=
  if p <? 1 then None
  else fst <$> scan (fun j => pid j =? p) jl.

(** getjobjid - Find a job (by JID) on the job list *)
Definition getjobjid (jl : list job_t) (id : Z) : option nat :=
  if id <? 1 then None
  else fst <$> scan (fun j => jid j =? id) jl.

(** pid2jid - Map process ID to job ID *)
Definition pid2jid (jl : list job_t) (p : Z) : Z :=
  if p <? 1 then 0
  else
    match scan (fun j => pid j =? p) jl with
    | Some (_, j) => jid j
    | None => 0
    end.

(** The table at startup: the array has static storage, so every field is
    zero before [main] calls [initjobs]. *)
Definition zero_job : job_t := {| pid := 0; jid := 0; state := 0; cmdline := "" |}.

Definition startup (v : bool) : globals :=
  {| verbose := v; nextjid := 1; job_list := initjobs (replicate MAXJOBS zero_job) |}.

(** listjobs - Print the job list *)
Definition state_label (i : nat) (j : job_t) : string :=
  if state j =? BG then "Running    "
  else if state j =? FG then "Foreground "
  else if state j =? ST then "Stopped    "
  else "listjobs: Internal error: job[" +:+ fmt_d (Z.of_nat i) +:+ "].state="
       +:+ fmt_d (state j) +:+ " ".

(** [if (write(output_fd, buf, strlen(buf)) < 0) { fprintf(stderr, ...); exit(1); }]
    followed by the rest [k] of the function. *)
Definition write_or_exit (fd : Z) (buf : string) (tr : list event)
    (k : list event -> list event * outcome) : list event * outcome :=
  if write tr fd buf <? 0
  then (tr ++ [Stderr ("Error writing to output file" +:+ NL)], Exited 1)
  else k (tr ++ [FdWrite fd buf]).

Fixpoint listjobs_from (jl : list job_t) (output_fd : Z) (i n : nat)
    (tr : list event) : list event * outcome :=
  match n with
  | O => (tr, Returned)
  | S n' =>
      match jl !! i with
      | Some j =>
          if negb (pid j =? 0) then
            write_or_exit output_fd
              ("[" +:+ fmt_d (jid j) +:+ "] (" +:+ fmt_d (pid j) +:+ ") ") tr (fun tr =>
            write_or_exit output_fd (state_label i j) tr (fun tr =>
            write_or_exit output_fd (cmdline j +:+ NL) tr (fun tr =>
            listjobs_from jl output_fd (S i) n' tr)))
          else listjobs_from jl output_fd (S i) n' tr
      | None => (tr, Returned)
      end
  end.

Definition listjobs (jl : list job_t) (output_fd : Z) : list event * outcome :=
  match listjobs_from jl output_fd 0 MAXJOBS [] with
  | (tr, Returned) =>
      (if negb (output_fd =? STDOUT_FILENO) then tr ++ [FdClose output_fd] else tr,
       Returned)
  | r => r
  end.

(** ** Other helper routines *)

(** unix_error - unix-style error routine *)
Definition unix_error (msg : string) : list event * outcome :=
  ([Stdout (msg +:+ ": " +:+ strerror_errno +:+ NL)], Exited 1).

(** app_error - application-style error routine *)
Definition app_error (msg : string) : list event * outcome :=
  ([Stdout (msg +:+ NL)], Exited 1).

(** [perror(s)] of the C library. *)
Definition perror (s : string) : event :=
  Stderr (s +:+ ": " +:+ strerror_errno +:+ NL).

(** ** Signal handlers *)

(** [job->state = s] through a pointer into the job list. *)
Definition set_state (s : Z) (j : job_t) : job_t :=
  {| pid := pid j; jid := jid j; state := s; cmdline := cmdline j |}.

Definition with_jobs (g : globals) (jl : list job_t) : globals :=
  {| verbose := verbose g; nextjid := nextjid g; job_list := jl |}.

(** The body of the loop of [sigchld_handler], for one child that
    [waitpid] reported. *)
Definition reap_child (g : globals) (wpid : Z) (child_status : wstatus)
  : globals * list event * outcome :=
  match getjobpid (job_list g) wpid with
  | None =>
      let '(tr, o) := app_error "sigchld getjobpid error" in (g, tr, o)
  | Some i =>
      let job := job_list g !!! i in
      if WIFEXITED child_status then
        (snd (deletejob g wpid),
         if verbose g
         then [Stdout ("[" +:+ fmt_d (jid job) +:+ "] (" +:+ fmt_d (pid job) +:+ ") "
                       +:+ cmdline job +:+ " deleted" +:+ NL)]
         else [],
         Returned)
      else if WIFSTOPPED child_status then
        (with_jobs g (alter (set_state ST) i (job_list g)),
         [Stdout ("Job [" +:+ fmt_d (jid job) +:+ "] (" +:+ fmt_d (pid job)
                  +:+ ") stopped by signal " +:+ fmt_d (WSTOPSIG child_status) +:+ NL)],
         Returned)
      else if WIFSIGNALED child_status then
        (snd (deletejob g wpid),
         [Stdout ("Job [" +:+ fmt_d (jid job) +:+ "] (" +:+ fmt_d (pid job)
                  +:+ ") terminated by signal " +:+ fmt_d (WTERMSIG child_status) +:+ NL)],
         Returned)
      else (g, [], Returned)
  end.

(** sigchld_handler: [ws] are the results of the successive calls of
    [waitpid(-1, &child_status, WNOHANG | WUNTRACED)], after which the call
    returns [last]; [echild] tells whether [errno] is [ECHILD] then. *)
Fixpoint sigchld_handler (g : globals) (ws : list (Z * wstatus)) (last : Z)
    (echild : bool) : globals * list event * outcome :=
  match ws with
  | (wpid, child_status) :: ws' =>
      if wpid >? 0 then
        match reap_child g wpid child_status with
        | (g', tr, Returned) =>
            let '(g'', tr', o) := sigchld_handler g' ws' last echild in
            (g'', tr ++ tr', o)
        | r => r
        end
      else if (wpid =? -1) && negb echild then
        let '(tr, o) := unix_error "sigchld wait error" in (g, tr, o)
      else (g, [], Returned)
  | [] =>
      if (last =? -1) && negb echild then
        let '(tr, o) := unix_error "sigchld wait error" in (g, tr, o)
      else (g, [], Returned)
  end.

(** sigint_handler - The kernel sends a SIGINT to the shell whenever the
    user types ctrl-c at the keyboard.  Catch it and send it along to the
    foreground job. *)
Definition sigint_handler (g : globals) : globals * list event * outcome :=
  let fid := fgpid (job_list g) in
  if fid =? 0 then (g, [], Returned)
  else if kill (- fid) SIGINT =? -1 then
    let '(tr, o) := unix_error "error sigint." in (g, Kill (- fid) SIGINT :: tr, o)
  else (g, [Kill (- fid) SIGINT], Returned).

(** sigtstp_handler - The kernel sends a SIGTSTP to the shell whenever the
    user types ctrl-z at the keyboard.  Catch it and suspend the foreground
    job by sending it a SIGTSTP. *)
Definition sigtstp_handler (g : globals) : globals * list event * outcome :=
  let fid := fgpid (job_list g) in
  if fid =? 0 then (g, [], Returned)
  else if kill (- fid) SIGTSTP =? -1 then
    let '(tr, o) := unix_error "error sigtstp." in (g, Kill (- fid) SIGTSTP :: tr, o)
  else (g, [Kill (- fid) SIGTSTP], Returned).

(** ** eval: the bg and fg builtins, and the forked child *)

(** The job that [argv[1]] names: [%jid] when it starts with a percent
    sign, a pid otherwise. *)
Definition job_of_arg (jl : list job_t) (a : string) : option nat :=
  match a with
  | String "%"%char rest => getjobjid jl (atoi rest)
  | _ => getjobpid jl (atoi a)
  end.

(** The branch [tok.builtins == BUILTIN_BG] of [eval]. *)
Definition eval_bg (g : globals) (tok : cmdline_tokens)
  : globals * list event * outcome :=
  if negb (argc tok =? 2) then (g, [Stderr "wrong input"], Returned)
  else
    match argv tok !! 1%nat with
    | None => (g, [], Fault)
    | Some a =>
        let stjob := job_of_arg (job_list g) a in
        (* if (stjob == NULL) fprintf(stderr, "No Such Job\n");  and on it goes *)
        let tr := match stjob with
                  | None => [Stderr ("No Such Job" +:+ NL)]
                  | Some _ => []
                  end in
        match stjob with
        | None => (g, tr, Fault)          (* stjob->state *)
        | Some i =>
            let job := job_list g !!! i in
            if negb (state job =? ST) then
              (g,
               tr ++ [Stderr ("[" +:+ fmt_d (jid job) +:+ "] " +:+ fmt_d (pid job)
                              +:+ " is running now" +:+ NL)],
               Returned)
            else
              (with_jobs g (alter (set_state BG) i (job_list g)),
               tr ++ [Stdout ("[" +:+ fmt_d (jid job) +:+ "] (" +:+ fmt_d (pid job)
                              +:+ ") " +:+ cmdline job);
                      Kill (- pid job) SIGCONT],
               Returned)
        end
    end.

(** The branch [tok.builtins == BUILTIN_FG] of [eval]. *)
Definition eval_fg (g : globals) (tok : cmdline_tokens)
  : globals * list event * outcome :=
  if negb (argc tok =? 2) then (g, [Stderr "wrong input"], Returned)
  else
    match argv tok !! 1%nat with
    | None => (g, [], Fault)
    | Some a =>
        let stjob := job_of_arg (job_list g) a in
        let tr := match stjob with
                  | None => [Stderr ("No Such Job" +:+ NL)]
                  | Some _ => []
                  end in
        match stjob with
        | None => (g, tr, Fault)          (* stjob->state *)
        | Some i =>
            let job := job_list g !!! i in
            if negb (state job =? ST) then
              (g,
               tr ++ [Stderr ("[" +:+ fmt_d (jid job) +:+ "] " +:+ fmt_d (pid job)
                              +:+ " is running now" +:+ NL)],
               Returned)
            else
              let g' := with_jobs g (alter (set_state FG) i (job_list g)) in
              (g', tr ++ [Kill (- pid job) SIGCONT],
               (* while (fgpid(job_list) != 0) ; *)
               if fgpid (job_list g') =? 0 then Returned else Spin)
        end
    end.

(** The body of [if ((pid = fork()) == 0) { ... }] of [eval], run by the
    child.  [Returned] is the [return] statement of [eval]: the child is
    then back in the read/eval loop of [main]. *)
Definition eval_child (tok : cmdline_tokens) : list event * outcome :=
  let run_program (tr : list event) : list event * outcome :=
    let tr := tr ++ [Setpgid; Unblock; SignalDfl SIGINT; SignalDfl SIGTSTP;
                     SignalDfl SIGCHLD; SignalDfl SIGTTIN; SignalDfl SIGTTOU] in
    match argv tok !! 0%nat with
    | Some prog =>
        if execve_fails prog (argv tok) then
          (tr ++ [Stderr (prog +:+ ": Command not found." +:+ NL)], Exited EXIT_FAILURE)
        else (tr, Execed prog (argv tok))
    | None => (tr, Fault)
    end in
  let redirect_out (tr : list event) : list event * outcome :=
    match outfile tok with
    | Some f =>
        let out_fd := open f in
        if out_fd =? -1 then (tr ++ [perror "Output Error"], Returned)
        else if dup2 out_fd 1 <? 0 then (tr ++ [perror "Dup Error"], Returned)
        else run_program (tr ++ [Dup2 out_fd 1])
    | None => run_program tr
    end in
  match infile tok with
  | Some f =>
      let in_fd := open f in
      if in_fd =? -1 then ([perror "Input Error"], Returned)
      else if dup2 in_fd 0 <? 0 then ([perror "Dup Error"], Returned)
      else redirect_out [Dup2 in_fd 0]
  | None => redirect_out []
  end.

(** ** Runs of the job table *)

(** The two operations that add and remove entries. *)
Inductive op :=
| Add (p s : Z) (c : string)     (* addjob(job_list, p, s, c) *)
| Del (p : Z).                   (* deletejob(job_list, p) *)

Definition step (g : globals) (o : op) : globals :=
  match o with
  | Add p s c => snd (fst (addjob g p s c))
  | Del p => snd (deletejob g p)
  end.

Definition run (ops : list op) (g : globals) : globals := foldl step g ops.

(** ** What the specification compares the code with *)

(** A slot is live when it holds a process. *)
Definition live (j : job_t) : Prop := pid j ≠ 0.

#[global] Instance live_dec j : Decision (live j).
Proof. unfold live. apply _. Defined.

(** The largest job id of a live entry, 0 when no entry is live. *)
Definition max_live_jid (jl : list job_t) : Z :=
  foldr Z.max 0 (jid <$> filter live jl).

(** An empty slot is a cleared one: [clearjob] is the only code that
    writes a zero pid. *)
Definition cleared_slots (jl : list job_t) : Prop :=
  ∀ j, j ∈ jl → pid j = 0 → jid j = 0 ∧ state j = UNDEF.

(** The text that reached file descriptor [fd]. *)
Fixpoint written (fd : Z) (tr : list event) : string :=
  match tr with
  | [] => ""
  | FdWrite fd' text :: tr' =>
      if fd' =? fd then text +:+ written fd tr' else written fd tr'
  | _ :: tr' => written fd tr'
  end.

(** One line of the listing: the entry of slot [i]. *)
Definition job_line (i : nat) (j : job_t) : string :=
  "[" +:+ fmt_d (jid j) +:+ "] (" +:+ fmt_d (pid j) +:+ ") "
  +:+ state_label i j +:+ cmdline j +:+ NL.

(** The lines of the live entries, in slot order; [i] is the index of the
    first slot of [jl]. *)
Fixpoint listing_from (i : nat) (jl : list job_t) : string :=
  match jl with
  | [] => ""
  | j :: jl' =>
      (if decide (live j) then job_line i j else "") +:+ listing_from (S i) jl'
  end.

Definition listing (jl : list job_t) : string := listing_from 0 jl.

(** The line as the specification words it: the label, four spaces, the
    command text. *)
Definition spec_label (j : job_t) : string :=
  if state j =? BG then "Running"
  else if state j =? FG then "Foreground"
  else "Stopped".

Definition spec_line (j : job_t) : string :=
  "[" +:+ fmt_d (jid j) +:+ "] (" +:+ fmt_d (pid j) +:+ ") "
  +:+ spec_label j +:+ "    " +:+ cmdline j +:+ NL.

(** The listing as the specification words it. *)
Fixpoint spec_listing (jl : list job_t) : string :=
  match jl with
  | [] => ""
  | j :: jl' => (if decide (live j) then spec_line j else "") +:+ spec_listing jl'
  end.

(** What every table that the program builds satisfies. *)
Definition table_ok (g : globals) : Prop :=
  length (job_list g) = MAXJOBS ∧ cleared_slots (job_list g) ∧ 1 ≤ nextjid g.

(** No two live slots are related by [R]. *)
Definition pairwise_live (R : job_t → job_t → Prop) (jl : list job_t) : Prop :=
  ∀ i k j1 j2, jl !! i = Some j1 → jl !! k = Some j2 →
    live j1 → live j2 → R j1 j2 → i = k.

Definition at_most_one_fg (jl : list job_t) : Prop :=
  pairwise_live (λ a b, state a = FG ∧ state b = FG) jl.

Definition unique_live (f : job_t → Z) (jl : list job_t) : Prop :=
  pairwise_live (λ a b, f a = f b) jl.

(** The calls that keep the entries apart: the caller adds a pid that no
    live entry holds, adds a foreground job only when [fgpid] reports none,
    and adds while the counter is above every job id of the table. *)
Inductive orderly (v : bool) : globals → Prop :=
| orderly_startup : orderly v (startup v)
| orderly_add g p s c :
    orderly v g →
    getjobpid (job_list g) p = None →
    (s = FG → fgpid (job_list g) = 0) →
    maxjid (job_list g) < nextjid g →
    orderly v (snd (fst (addjob g p s c)))
| orderly_delete g p :
    orderly v g → orderly v (snd (deletejob g p)).

(** The calls that the shell makes: [eval] adds the pid that [fork] has
    just returned, which no live entry holds, and it adds a foreground job
    only when none is in the foreground, since it waits for that one
    first; the reaper removes.  Nothing is asked of the counter. *)
Inductive shell_run (v : bool) : globals → Prop :=
| shell_startup : shell_run v (startup v)
| shell_add g p s c :
    shell_run v g →
    getjobpid (job_list g) p = None →
    (s = FG → fgpid (job_list g) = 0) →
    shell_run v (snd (fst (addjob g p s c)))
| shell_delete g p :
    shell_run v g → shell_run v (snd (deletejob g p)).

(** Whether a list of operations, run from [g], is made of such calls. *)
Fixpoint shell_ops (g : globals) (ops : list op) : bool :=
  match ops with
  | [] => true
  | Add p s c :: ops' =>
      match getjobpid (job_list g) p with
      | None =>
          (negb (s =? FG) || (fgpid (job_list g) =? 0))
          && shell_ops (step g (Add p s c)) ops'
      | Some _ => false
      end
  | Del p :: ops' => shell_ops (step g (Del p)) ops'
  end.

(** The three writes of a live slot, none for an empty one. *)
Fixpoint writes_from (fd : Z) (i : nat) (jl : list job_t) : list event :=
  match jl with
  | [] => []
  | j :: jl' =>
      (if decide (live j)
       then [FdWrite fd ("[" +:+ fmt_d (jid j) +:+ "] (" +:+ fmt_d (pid j) +:+ ") ");
             FdWrite fd (state_label i j);
             FdWrite fd (cmdline j +:+ NL)]
       else [])
      ++ writes_from fd (S i) jl'
  end.

(** ** Some runs *)

Definition bg_job (p : Z) : op := Add p BG "sleep 9 &".

(** Fifteen background jobs. *)
Definition fifteen : list op :=
  bg_job <$> [101; 102; 103; 104; 105; 106; 107; 108; 109; 110;
              111; 112; 113; 114; 115].

(** After them the second job ends and two more are started. *)
Definition clash_ops : list op := fifteen ++ [Del 102; bg_job 116; bg_job 117].

(** A session of background commands: the first job keeps running, each
    of the others ends after the next one has been started, and the
    sixteenth command has just been run. *)
Definition session_ops : list op :=
  [bg_job 101; bg_job 102]
  ++ flat_map (λ p, [bg_job p; Del (p - 1)])
       [103; 104; 105; 106; 107; 108; 109; 110; 111; 112; 113; 114; 115]
  ++ [bg_job 116].

(** After them a sixteenth job is started and the first one ends. *)
Definition past_ops : list op := fifteen ++ [bg_job 116; Del 101].

(** A foreground job and a background job. *)
Definition two_ops : list op := [Add 100 FG "vi notes"; Add 101 BG "sleep 9 &"].

(** The foreground job is gone and another one is started. *)
Definition calm_ops : list op := two_ops ++ [Del 100; Add 102 FG "ls -l"].

(** [atoi] on a string of decimal digits. *)
Fixpoint atoi_digits (acc : Z) (s : string) : Z :=
  match s with
  | String c rest =>
      let n := Z.of_nat (nat_of_ascii c) in
      if (48 <=? n) && (n <=? 57) then atoi_digits (10 * acc + (n - 48)) rest
      else acc
  | EmptyString => acc
  end.

(** An operating system in which every job leads its own process group,
    every signal is delivered and every write succeeds. *)
Definition own_group (p : Z) : Z := p.
Definition kill_ok (target : Z) (sig : signal) : Z := 0.
Definition write_ok (tr : list event) (fd : Z) (buf : string) : Z :=
  Z.of_nat (String.length buf).

(** ... and one in which no file can be opened. *)
Definition open_fails (path : string) : Z := -1.
Definition dup2_ok (oldfd newfd : Z) : Z := newfd.
Definition execve_ok (path : string) (args : list string) : bool := false.
Definition ENOENT_text : string := "No such file or directory".

(** The number of live entries. *)
Definition live_count (jl : list job_t) : nat := length (filter live jl).

(** ** parseline *)

Definition MAXARGS : nat := 128.   (* max args on a command line *)

Definition ST_NORMAL : Z := 0.     (* next token is an argument *)
Definition ST_INFILE : Z := 1.     (* next token is the input file *)
Definition ST_OUTFILE : Z := 2.    (* next token is the output file *)

(** [delims]: blank, tab, carriage return, newline. *)
Definition is_delim (c : ascii) : bool :=
  (c =? " ")%char || (c =? ascii_of_nat 9)%char
  || (c =? ascii_of_nat 13)%char || (c =? ascii_of_nat 10)%char.

Definition is_quote (c : ascii) : bool :=
  (c =? "'")%char || (c =? ascii_of_nat 34)%char.

Arguments is_delim : simpl never.
Arguments is_quote : simpl never.

(** The C string that a buffer holds: the characters before the first NUL.
    This is what [strncpy] copies of the command line (a line of
    [MAXLINE] characters or more is not foreseen by the source; [main]
    reads lines with [fgets(cmdline, MAXLINE, stdin)]). *)
Fixpoint c_string (s : string) : string :=
  match s with
  | String c rest => if (c =? ascii_of_nat 0)%char then "" else String c (c_string rest)
  | EmptyString => ""
  end.

(** [buf += strspn(buf, delims)] *)
Fixpoint skip_delims (buf : string) : string :=
  match buf with
  | String c rest => if is_delim c then skip_delims rest else buf
  | EmptyString => ""
  end.

(** [next = buf + strcspn(buf, delims)]: the characters before [next], and
    the buffer from [next] on. *)
Fixpoint span_token (buf : string) : string * string :=
  match buf with
  | String c rest =>
      if is_delim c then ("", buf)
      else let '(token, next) := span_token rest in (String c token, next)
  | EmptyString => ("", "")
  end.

(** [next = strchr(buf, q)]: NULL, or the characters before [next] and the
    buffer from [next] on. *)
Fixpoint find_char (q : ascii) (buf : string) : option (string * string) :=
  match buf with
  | String c rest =>
      if (c =? q)%char then Some ("", buf)
      else match find_char q rest with
           | Some (token, next) => Some (String c token, next)
           | None => None
           end
  | EmptyString => None
  end.

(** What the loop of [parseline] has collected. *)
Record pstate := mkpstate {
  p_argv : list string;          (* tok->argv[0 .. tok->argc - 1] *)
  p_infile : option string;      (* tok->infile *)
  p_outfile : option string;     (* tok->outfile *)
  p_state : Z                    (* parsing_state *)
}.

Definition ambiguous : list event * option pstate :=
  ([Stderr ("Error: Ambiguous I/O redirection" +:+ NL)], None).

(** The token at [buf], whose first character is [c]: up to the closing
    quote when [c] is a quote ([buf++; next = strchr(buf, *(buf-1))]), up
    to the next delimiter otherwise ([next = buf + strcspn(buf, delims)]);
    [None] is [next == NULL]. *)
Definition next_token (c : ascii) (rest : string) : option (string * string) :=
  if is_quote c then find_char c rest else Some (span_token (String c rest)).

(** [switch (parsing_state) { ... }] followed by
    [parsing_state = ST_NORMAL]; [None] is the [default] case. *)
Definition record_token (st : pstate) (token : string) : option pstate :=
  if p_state st =? ST_NORMAL then
    Some {| p_argv := p_argv st ++ [token]; p_infile := p_infile st;
            p_outfile := p_outfile st; p_state := ST_NORMAL |}
  else if p_state st =? ST_INFILE then
    Some {| p_argv := p_argv st; p_infile := Some token;
            p_outfile := p_outfile st; p_state := ST_NORMAL |}
  else if p_state st =? ST_OUTFILE then
    Some {| p_argv := p_argv st; p_infile := p_infile st;
            p_outfile := Some token; p_state := ST_NORMAL |}
  else None.

(** [buf = next + 1]; past the end of the line the loop ends. *)
Definition advance (next : string) : string :=
  match next with
  | String _ after => after
  | EmptyString => ""
  end.

(** [parsing_state |= bit] *)
Definition expect (st : pstate) (bit : Z) : pstate :=
  {| p_argv := p_argv st; p_infile := p_infile st; p_outfile := p_outfile st;
     p_state := Z.lor (p_state st) bit |}.

(** The loop [while (buf < endbuf) { ... }] of [parseline]; [buf] is the
    buffer from [buf] to [endbuf].  [None] when [fuel] runs out, which it
    does not when it exceeds the length of the buffer
    ([parse_loop_fuel]). *)
Fixpoint parse_loop (fuel : nat) (st : pstate) (buf : string)
  : option (list event * option pstate) :=
  match fuel with
  | O => None
  | S fuel' =>
      match skip_delims buf with
      | EmptyString => Some ([], Some st)      (* the end of the line *)
      | String c rest =>
          if (c =? "<")%char then
            match p_infile st with
            | Some _ => Some ambiguous
            | None => parse_loop fuel' (expect st ST_INFILE) rest
            end
          else if (c =? ">")%char then
            match p_outfile st with
            | Some _ => Some ambiguous
            | None => parse_loop fuel' (expect st ST_OUTFILE) rest
            end
          else
            match next_token c rest with
            | None =>
                Some ([Stderr ("Error: unmatched " +:+ String c "." +:+ NL)], None)
            | Some (token, next) =>
                (* *next = '\0'; *)
                match record_token st token with
                | None => Some ambiguous
                | Some st' =>
                    (* if (tok->argc >= MAXARGS-1) break; *)
                    if (MAXARGS - 1 <=? length (p_argv st'))%nat
                    then Some ([], Some st')
                    else parse_loop fuel' st' (advance next)
                end
            end
      end
  end.

(** The [strcmp] chain that sets [tok->builtins]. *)
Definition classify (arg0 : string) : builtins_t :=
  if String.eqb arg0 "quit" then BUILTIN_QUIT
  else if String.eqb arg0 "jobs" then BUILTIN_JOBS
  else if String.eqb arg0 "bg" then BUILTIN_BG
  else if String.eqb arg0 "fg" then BUILTIN_FG
  else BUILTIN_NONE.

(** [*tok->argv[tok->argc-1] == '&'] *)
Definition starts_with_amp (arg : string) : bool :=
  match arg with
  | String c _ => (c =? "&")%char
  | EmptyString => false
  end.

(** parseline - Parse the command line and build the argv array.  The
    result is what is printed and, unless the return value is -1, the
    return value with the tokens.  For a line without arguments the source
    returns before it sets [tok->builtins]; [eval] does not read the field
    then, and it is [BUILTIN_NONE] here. *)
Definition parseline (cmdline : string) : list event * option (Z * cmdline_tokens) :=
  let buf := c_string cmdline in
  match parse_loop (S (String.length buf))
          {| p_argv := []; p_infile := None; p_outfile := None;
             p_state := ST_NORMAL |} buf with
  | None => ([], None)
  | Some (tr, None) => (tr, None)
  | Some (tr, Some st) =>
      if negb (p_state st =? ST_NORMAL) then
        (tr ++ [Stderr ("Error: must provide file name for redirection" +:+ NL)], None)
      else
        match p_argv st with
        | [] =>
            (tr, Some (1, {| argc := 0; argv := []; infile := p_infile st;
                             outfile := p_outfile st; builtins := BUILTIN_NONE |}))
        | arg0 :: _ =>
            if starts_with_amp (List.last (p_argv st) "") then
              (tr, Some (1, {| argc := Z.of_nat (length (p_argv st)) - 1;
                               argv := removelast (p_argv st);
                               infile := p_infile st; outfile := p_outfile st;
                               builtins := classify arg0 |}))
            else
              (tr, Some (0, {| argc := Z.of_nat (length (p_argv st));
                               argv := p_argv st;
                               infile := p_infile st; outfile := p_outfile st;
                               builtins := classify arg0 |}))
        end
  end.

(** ** eval *)

(** sigquit_handler - The driver program can gracefully terminate the
    child shell by sending it a SIGQUIT signal. *)
Definition sigquit_handler : list event * outcome :=
  ([Stdout ("Terminating after receipt of SIGQUIT signal" +:+ NL)], Exited 1).

(** The branch [tok.builtins == BUILTIN_NONE] of [eval]; [fork_ret] is what
    [fork] returns: 0 in the child, -1 on failure, the pid of the child in
    the parent.  The calls of [sigprocmask] around it order the handlers
    against this code and leave no trace in the parent. *)
Definition launch (g : globals) (tok : cmdline_tokens) (bg : Z)
    (cmdline : string) (fork_ret : Z) : globals * list event * outcome :=
  if fork_ret =? 0 then
    let '(tr, o) := eval_child tok in (g, tr, o)
  else if fork_ret =? -1 then
    let '(tr, o) := unix_error "fork error" in (g, tr, o)
  else
    let '(_, g', tr) := addjob g fork_ret (bg + 1) cmdline in
    let jid := pid2jid (job_list g') fork_ret in
    if bg =? 0 then
      (g', tr, if fgpid (job_list g') =? 0 then Returned else Spin)
    else
      (g',
       tr ++ [Stdout ("[" +:+ fmt_d jid +:+ "] (" +:+ fmt_d fork_ret +:+ ") "
                      +:+ cmdline +:+ NL)],
       Returned).

(** The branch [tok.builtins == BUILTIN_JOBS] of [eval]. *)
Definition eval_jobs (g : globals) (tok : cmdline_tokens)
  : globals * list event * outcome :=
  match outfile tok with
  | Some f =>
      let out_fd := open f in
      if out_fd =? -1 then (g, [perror "jobs output error"], Returned)
      else let '(tr, o) := listjobs (job_list g) out_fd in (g, tr, o)
  | None =>
      let '(tr, o) := listjobs (job_list g) STDOUT_FILENO in (g, tr, o)
  end.

(** The branch [tok.builtins == BUILTIN_QUIT] of [eval]; [self] is
    [getpid()].  [main] has installed [sigquit_handler] for SIGQUIT and
    nothing blocks the signal here, so the handler runs before [kill]
    returns, and the branch ends in the [exit(1)] of the handler. *)
Definition eval_quit (g : globals) (self : Z) : globals * list event * outcome :=
  let '(tr, o) := sigquit_handler in
  (g,
   (if verbose g then [Stdout ("clear all the jobs and quit" +:+ NL)] else [])
   ++ [Kill self SIGQUIT] ++ tr,
   o).

(** eval - Evaluate the command line that the user has just typed in.
    The last [else] of the source, for a value of [tok.builtins] that is
    none of the five, has no counterpart. *)
Definition eval (g : globals) (cmdline : string) (self fork_ret : Z)
  : globals * list event * outcome :=
  let '(ptr, parsed) := parseline cmdline in
  match parsed with
  | None => (g, ptr, Returned)                   (* if (bg == -1) return; *)
  | Some (bg, tok) =>
      match argv tok with
      | [] => (g, ptr, Returned)                 (* if (tok.argv[0] == NULL) return; *)
      | _ :: _ =>
          let '(g', tr, o) :=
            match builtins tok with
            | BUILTIN_NONE => launch g tok bg cmdline fork_ret
            | BUILTIN_QUIT => eval_quit g self
            | BUILTIN_JOBS => eval_jobs g tok
            | BUILTIN_BG => eval_bg g tok
            | BUILTIN_FG => eval_fg g tok
            end in
          (g', ptr ++ tr, o)
      end
  end.

(** The signals that a trace sends, in order. *)
Fixpoint signals_sent (tr : list event) : list (Z * signal) :=
  match tr with
  | [] => []
  | Kill target sig :: tr' => (target, sig) :: signals_sent tr'
  | _ :: tr' => signals_sent tr'
  end.

(** The words of a line: its maximal runs of characters that are not
    delimiters, in order. *)
Fixpoint split_words (s : string) : list string :=
  match s with
  | EmptyString => []
  | String c rest =>
      if is_delim c then split_words rest
      else
        match rest with
        | EmptyString => [String c ""]
        | String d _ =>
            if is_delim d then String c "" :: split_words rest
            else match split_words rest with
                 | w :: ws => String c w :: ws
                 | [] => [String c ""]
                 end
        end
  end.

(** A line of delimiters only. *)
Fixpoint blank (s : string) : bool :=
  match s with
  | EmptyString => true
  | String c rest => is_delim c && blank rest
  end.

(** A line without quotes and without redirection characters. *)
Fixpoint plain (s : string) : bool :=
  match s with
  | EmptyString => true
  | String c rest =>
      negb (c =? "<")%char && negb (c =? ">")%char && negb (is_quote c)
      && plain rest
  end.

(** Whether a character occurs in a string. *)
Fixpoint has_char (q : ascii) (s : string) : bool :=
  match s with
  | EmptyString => false
  | String c rest => (c =? q)%char || has_char q rest
  end.

(** An [open] that succeeds for every path and returns descriptor 3. *)
Definition open_ok (path : string) : Z := 3.

(** ** The scanning loop *)

Lemma scan_from_Some P jl i n k j :
  scan_from P jl i n = Some (k, j) →
  (i ≤ k < i + n)%nat ∧ jl !! k = Some j ∧ P j = true ∧
  ∀ m j', (i ≤ m < k)%nat → jl !! m = Some j' → P j' = false.
Proof.
  revert i. induction n as [|n IH]; intros i H; simpl in H; [discriminate|].
  destruct (jl !! i) as [ji|] eqn:Ei; [|discriminate].
  destruct (P ji) eqn:EP.
  - injection H as <- <-. repeat split; try lia; try done.
  - apply IH in H as (Hk & Hj & HP & Hbefore).
    repeat split; try lia; try done.
    intros m j' Hm Hj'. destruct (decide (m = i)) as [->|].
    + congruence.
    + apply (Hbefore m); [lia|done].
Qed.

Lemma scan_from_None P jl i n m j :
  scan_from P jl i n = None →
  (i ≤ m < i + n)%nat → jl !! m = Some j → P j = false.
Proof.
  revert i. induction n as [|n IH]; intros i H Hm Hj; simpl in H; [lia|].
  destruct (jl !! i) as [ji|] eqn:Ei.
  - destruct (P ji) eqn:EP; [discriminate|].
    destruct (decide (m = i)) as [->|]; [congruence|].
    apply (IH (S i)); [done|lia|done].
  - apply lookup_ge_None in Ei. apply lookup_lt_Some in Hj. lia.
Qed.

Lemma scan_from_first P jl i n k j :
  (i ≤ k < i + n)%nat → jl !! k = Some j → P j = true →
  (∀ m j', (i ≤ m < k)%nat → jl !! m = Some j' → P j' = false) →
  scan_from P jl i n = Some (k, j).
Proof.
  revert i. induction n as [|n IH]; intros i Hk Hj HP Hbefore; [lia|].
  simpl. destruct (jl !! i) as [ji|] eqn:Ei.
  - destruct (decide (i = k)) as [->|Hne].
    + assert (ji = j) as -> by congruence. by rewrite HP.
    + rewrite (Hbefore i ji) by (done || lia).
      apply IH; [lia|done|done|]. intros m j' Hm. apply Hbefore. lia.
  - apply lookup_ge_None in Ei. apply lookup_lt_Some in Hj. lia.
Qed.

Lemma scan_Some P jl k j :
  scan P jl = Some (k, j) →
  jl !! k = Some j ∧ P j = true ∧
  ∀ m j', (m < k)%nat → jl !! m = Some j' → P j' = false.
Proof.
  intros H. apply scan_from_Some in H as (_ & Hj & HP & Hb).
  repeat split; try done. intros m j' Hm. apply Hb. lia.
Qed.

Lemma scan_None P jl m j :
  length jl = MAXJOBS → scan P jl = None → jl !! m = Some j → P j = false.
Proof.
  intros Hlen H Hj. apply (scan_from_None P jl 0 MAXJOBS m j H); [|done].
  apply lookup_lt_Some in Hj. lia.
Qed.

Lemma scan_first P jl k j :
  length jl = MAXJOBS → jl !! k = Some j → P j = true →
  (∀ m j', (m < k)%nat → jl !! m = Some j' → P j' = false) →
  scan P jl = Some (k, j).
Proof.
  intros Hlen Hj HP Hb. apply scan_from_first; try done.
  - apply lookup_lt_Some in Hj. lia.
  - intros m j' Hm. apply Hb. lia.
Qed.

Lemma scan_absent P jl :
  (∀ m j, jl !! m = Some j → P j = false) → scan P jl = None.
Proof.
  intros H. destruct (scan P jl) as [[k j]|] eqn:E; [|done].
  apply scan_Some in E as (Hj & HP & _). rewrite (H k j Hj) in HP. discriminate.
Qed.

(** ** maxjid *)

Lemma maxjid_from_foldl jl i n m :
  maxjid_from jl i n m = foldl (λ a j, Z.max a (jid j)) m (take n (drop i jl)).
Proof.
  revert i m. induction n as [|n IH]; intros i m; simpl; [done|].
  destruct (jl !! i) as [j|] eqn:Ei.
  - rewrite (drop_S _ _ _ Ei). simpl. rewrite IH. f_equal.
    rewrite Z.gtb_ltb. destruct (Z.ltb_spec m (jid j)); lia.
  - apply lookup_ge_None in Ei. by rewrite drop_ge by lia.
Qed.

Lemma foldl_max_live jl m :
  0 ≤ m → (∀ j, j ∈ jl → pid j = 0 → jid j ≤ 0) →
  foldl (λ a j, Z.max a (jid j)) m jl = Z.max m (max_live_jid jl).
Proof.
  unfold max_live_jid. revert m.
  induction jl as [|j jl IH]; intros m Hm Hc; simpl; [lia|].
  rewrite IH; [|lia|intros k Hk; apply Hc; by right].
  rewrite filter_cons. destruct (decide (live j)) as [Hl|Hl]; csimpl; [lia|].
  assert (jid j ≤ 0).
  { apply Hc; [by left|]. unfold live in Hl. by destruct (decide (pid j = 0)). }
  lia.
Qed.

Lemma max_live_jid_nonneg jl : 0 ≤ max_live_jid jl.
Proof.
  unfold max_live_jid. induction (filter live jl) as [|j l IH]; csimpl; lia.
Qed.

Lemma maxjid_max_live jl :
  length jl = MAXJOBS → (∀ j, j ∈ jl → pid j = 0 → jid j ≤ 0) →
  maxjid jl = max_live_jid jl.
Proof.
  intros Hlen Hc. unfold maxjid. rewrite maxjid_from_foldl, drop_0.
  rewrite take_ge by lia. rewrite foldl_max_live by (done || lia).
  pose proof (max_live_jid_nonneg jl). lia.
Qed.

Lemma maxjid_upper jl j :
  length jl = MAXJOBS → j ∈ jl → jid j ≤ maxjid jl.
Proof.
  intros Hlen Hj. unfold maxjid. rewrite maxjid_from_foldl, drop_0.
  rewrite take_ge by lia. clear Hlen. generalize 0.
  induction jl as [|k jl IH]; intros m; [by apply elem_of_nil in Hj|].
  simpl. apply elem_of_cons in Hj as [->|Hj].
  - clear IH. generalize (Z.le_max_r m (jid k)). generalize (Z.max m (jid k)).
    induction jl as [|k' jl IH]; intros a Ha; simpl; [done|]. apply IH. lia.
  - by apply IH.
Qed.

(** ** Writing one slot *)

Lemma alter_clearjob (jl : list job_t) (i : nat) j :
  jl !! i = Some j → alter clearjob i jl = <[i := clearjob j]> jl.
Proof. intros _. rewrite list_insert_alter. by apply list_alter_ext. Qed.

Lemma elem_of_alter_inv (f : job_t → job_t) (jl : list job_t) (i : nat) k :
  k ∈ alter f i jl → k ∈ jl ∨ ∃ j, jl !! i = Some j ∧ k = f j.
Proof.
  intros [m Hm]%list_elem_of_lookup. rewrite list_lookup_alter in Hm.
  destruct (decide (i = m)) as [->|].
  - destruct (jl !! m) as [j|] eqn:E; [|discriminate].
    right. exists j. split; [done|]. simpl in Hm. congruence.
  - left. apply list_elem_of_lookup. eauto.
Qed.

Lemma elem_of_insert_inv (jl : list job_t) (i : nat) j k :
  k ∈ <[i := j]> jl → k ∈ jl ∨ k = j.
Proof.
  rewrite list_insert_alter. intros [H|(x & _ & ->)]%elem_of_alter_inv; auto.
Qed.

Lemma cleared_slots_clear (jl : list job_t) (i : nat) :
  cleared_slots jl → cleared_slots (alter clearjob i jl).
Proof.
  intros Hc k [Hk|(j & _ & ->)]%elem_of_alter_inv Hp; [by apply Hc|done].
Qed.

Lemma cleared_slots_insert (jl : list job_t) (i : nat) j :
  pid j ≠ 0 → cleared_slots jl → cleared_slots (<[i := j]> jl).
Proof.
  intros Hj Hc k [Hk| ->]%elem_of_insert_inv Hp; [by apply Hc|done].
Qed.

Lemma cleared_slots_jid jl :
  cleared_slots jl → ∀ j, j ∈ jl → pid j = 0 → jid j ≤ 0.
Proof. intros Hc j Hj Hp. destruct (Hc j Hj Hp) as [-> _]. done. Qed.

(** ** The job table: addjob and deletejob *)

(** C5: addjob rejects a pid below 1 and leaves the globals as they are;
    with a positive pid and an empty slot it writes the job, with the
    current [nextjid] as its job id, into the empty slot of lowest index
    and returns 1; with a positive pid and no empty slot it prints the
    table-full message, returns 0 and leaves the globals as they are. *)
Theorem addjob_spec (g : globals) (p s : Z) (c : string) :
  length (job_list g) = MAXJOBS →
  (p < 1 → addjob g p s c = (0, g, [])) ∧
  (1 ≤ p →
   ∀ i j, job_list g !! i = Some j → pid j = 0 →
     (∀ m j', (m < i)%nat → job_list g !! m = Some j' → pid j' ≠ 0) →
     fst (addjob g p s c) =
       (1, {| verbose := verbose g;
              nextjid := if nextjid g + 1 >? Z.of_nat MAXJOBS then 1
                         else nextjid g + 1;
              job_list := <[i := {| pid := p; jid := nextjid g;
                                    state := s; cmdline := c |}]> (job_list g) |})) ∧
  (1 ≤ p → (∀ i j, job_list g !! i = Some j → pid j ≠ 0) →
   addjob g p s c
   = (0, g, [Stdout ("Tried to create too many jobs" +:+ NL)])).
Proof.
  intros Hlen. unfold addjob. repeat split.
  - intros Hp. destruct (Z.ltb_spec p 1); [done|lia].
  - intros Hp i j Hj Hz Hb. destruct (Z.ltb_spec p 1); [lia|].
    rewrite (scan_first (λ j, pid j =? 0) (job_list g) i j); try done.
    + by apply Z.eqb_eq.
    + intros m j' Hm Hj'. apply Z.eqb_neq. by apply (Hb m).
  - intros Hp Hfull. destruct (Z.ltb_spec p 1); [lia|].
    rewrite scan_absent; [done|].
    intros m j Hj. apply Z.eqb_neq. by apply (Hfull m).
Qed.

(** C6: deletejob, called with a pid of 1 or more that a slot holds,
    clears the slot of lowest index that holds it and no other slot, sets
    [nextjid] to the largest job id of the entries that remain live plus
    one (1 when none remains), and returns 1.  The table has its
    [MAXJOBS] slots, and an empty slot carries no job id, as [clearjob]
    leaves it. *)
Theorem deletejob_spec (g : globals) (p : Z) (i : nat) (j : job_t) :
  length (job_list g) = MAXJOBS →
  (∀ k, k ∈ job_list g → pid k = 0 → jid k ≤ 0) →
  1 ≤ p →
  job_list g !! i = Some j → pid j = p →
  (∀ m j', (m < i)%nat → job_list g !! m = Some j' → pid j' ≠ p) →
  let jl' := <[i := clearjob j]> (job_list g) in
  deletejob g p
  = (1, {| verbose := verbose g; nextjid := max_live_jid jl' + 1; job_list := jl' |})
  ∧ jl' !! i = Some {| pid := 0; jid := 0; state := UNDEF; cmdline := "" |}
  ∧ ∀ k, k ≠ i → jl' !! k = job_list g !! k.
Proof.
  intros Hlen Hc Hp Hj Hpid Hb jl'. repeat split.
  - unfold deletejob. destruct (Z.ltb_spec p 1); [lia|].
    rewrite (scan_first (λ j, pid j =? p) (job_list g) i j); try done.
    + rewrite (alter_clearjob _ _ _ Hj). fold jl'. do 2 f_equal.
      f_equal. apply maxjid_max_live.
      * unfold jl'. by rewrite length_insert.
      * intros k [Hk| ->]%elem_of_insert_inv Hz; [by apply Hc|done].
    + by apply Z.eqb_eq.
    + intros m j' Hm Hj'. apply Z.eqb_neq. by apply (Hb m).
  - unfold jl'. apply list_lookup_insert_eq. by apply lookup_lt_Some in Hj.
  - intros k Hk. unfold jl'. by apply list_lookup_insert_ne.
Qed.

(** C10: deletejob, called with a pid below 1 or with a pid that no slot
    holds, returns 0 and leaves the job list and [nextjid] as they are. *)
Theorem deletejob_absent (g : globals) (p : Z) :
  (p < 1 ∨ ∀ i j, job_list g !! i = Some j → pid j ≠ p) →
  deletejob g p = (0, g).
Proof.
  intros H. unfold deletejob. destruct (Z.ltb_spec p 1); [done|].
  destruct H as [H|H]; [lia|].
  rewrite scan_absent; [done|].
  intros m j Hj. apply Z.eqb_neq. by apply (H m).
Qed.

(** ** Invariants of the job table *)

Lemma startup_jobs v :
  job_list (startup v) = replicate MAXJOBS (clearjob zero_job).
Proof. reflexivity. Qed.

Lemma startup_ok v : table_ok (startup v).
Proof.
  unfold table_ok. rewrite startup_jobs. split; [done|split; [|done]].
  intros j [-> _]%elem_of_replicate _. done.
Qed.

(** The two ways [addjob] ends: the globals are untouched, or the job is in
    the first empty slot. *)
Lemma addjob_cases g p s c :
  fst (addjob g p s c) = (0, g) ∨
  (1 ≤ p ∧ ∃ i j,
     job_list g !! i = Some j ∧ pid j = 0 ∧
     fst (addjob g p s c) =
       (1, {| verbose := verbose g;
              nextjid := if nextjid g + 1 >? Z.of_nat MAXJOBS then 1
                         else nextjid g + 1;
              job_list := <[i := {| pid := p; jid := nextjid g;
                                    state := s; cmdline := c |}]> (job_list g) |})).
Proof.
  unfold addjob. destruct (Z.ltb_spec p 1); [by left|].
  destruct (scan _ _) as [[i j]|] eqn:E; [|by left].
  right. split; [lia|]. exists i, j.
  apply scan_Some in E as (Hj & Hz%Z.eqb_eq & _). done.
Qed.

(** The two ways [deletejob] ends. *)
Lemma deletejob_cases g p :
  deletejob g p = (0, g) ∨
  (1 ≤ p ∧ ∃ i j,
     job_list g !! i = Some j ∧ pid j = p ∧
     deletejob g p =
       (1, {| verbose := verbose g;
              nextjid := maxjid (alter clearjob i (job_list g)) + 1;
              job_list := alter clearjob i (job_list g) |})).
Proof.
  unfold deletejob. destruct (Z.ltb_spec p 1); [by left|].
  destruct (scan _ _) as [[i j]|] eqn:E; [|by left].
  right. split; [lia|]. exists i, j.
  apply scan_Some in E as (Hj & Hz%Z.eqb_eq & _). done.
Qed.

Lemma addjob_ok g p s c : table_ok g → table_ok (snd (fst (addjob g p s c))).
Proof.
  intros (Hlen & Hc & Hn).
  destruct (addjob_cases g p s c) as [->|(Hp & i & j & _ & _ & ->)]; [done|].
  split; [|split]; simpl.
  - by rewrite length_insert.
  - apply cleared_slots_insert; [simpl; lia|done].
  - rewrite Z.gtb_ltb. destruct (Z.ltb_spec (Z.of_nat MAXJOBS) (nextjid g + 1)); lia.
Qed.

Lemma deletejob_ok g p : table_ok g → table_ok (snd (deletejob g p)).
Proof.
  intros (Hlen & Hc & Hn).
  destruct (deletejob_cases g p) as [->|(Hp & i & j & _ & _ & ->)]; [done|].
  assert (cleared_slots (alter clearjob i (job_list g))) as Hc'
    by by apply cleared_slots_clear.
  split; [|split]; simpl; try done.
  - by rewrite length_alter.
  - rewrite maxjid_max_live.
    + pose proof (max_live_jid_nonneg (alter clearjob i (job_list g))). lia.
    + by rewrite length_alter.
    + by apply cleared_slots_jid.
Qed.

Lemma step_ok g o : table_ok g → table_ok (step g o).
Proof. destruct o; simpl; [apply addjob_ok|apply deletejob_ok]. Qed.

Lemma run_snoc ops o g : run (ops ++ [o]) g = step (run ops g) o.
Proof. unfold run. apply foldl_snoc. Qed.

Lemma run_ok ops v : table_ok (run ops (startup v)).
Proof.
  induction ops as [|o ops IH] using rev_ind; [apply startup_ok|].
  rewrite run_snoc. by apply step_ok.
Qed.

(** ** The next-job-id counter *)

(** C8, as the code has it: in every table that adds and removals build
    from the startup table the counter is at least 1; a successful add
    leaves it in [1, MAXJOBS], at 1 when the increment would pass
    [MAXJOBS] and one higher otherwise; a successful removal leaves it at
    the largest live job id plus one, whatever that is. *)
Theorem nextjid_after (ops : list op) (v : bool) (p s : Z) (c : string) :
  let g := run ops (startup v) in
  1 ≤ nextjid g ∧
  (∀ g', fst (addjob g p s c) = (1, g') →
     1 ≤ nextjid g' ≤ Z.of_nat MAXJOBS ∧
     (Z.of_nat MAXJOBS < nextjid g + 1 → nextjid g' = 1) ∧
     (nextjid g + 1 ≤ Z.of_nat MAXJOBS → nextjid g' = nextjid g + 1)) ∧
  (∀ g', deletejob g p = (1, g') →
     nextjid g' = max_live_jid (job_list g') + 1).
Proof.
  intros g. destruct (run_ok ops v) as (Hlen & Hc & Hn). fold g in Hlen, Hc, Hn.
  split; [done|split].
  - intros g' H.
    destruct (addjob_cases g p s c) as [E|(Hp & i & j & _ & _ & E)];
      rewrite E in H; [discriminate|].
    injection H as <-. simpl. rewrite Z.gtb_ltb.
    destruct (Z.ltb_spec (Z.of_nat MAXJOBS) (nextjid g + 1));
      unfold MAXJOBS in *; lia.
  - intros g' H.
    destruct (deletejob_cases g p) as [E|(Hp & i & j & _ & _ & E)];
      rewrite E in H; [discriminate|].
    injection H as <-. simpl. f_equal. apply maxjid_max_live.
    + by rewrite length_alter.
    + apply cleared_slots_jid. by apply cleared_slots_clear.
Qed.

(** Job ids grow by at most one per call, so a run of [n] operations holds
    no job id above [n] and leaves the counter at [n + 1] at most: the
    [int] arithmetic of the source cannot overflow in a run of feasible
    length. *)
Lemma maxjid_lub jl M :
  length jl = MAXJOBS → 0 ≤ M → (∀ j, j ∈ jl → jid j ≤ M) → maxjid jl ≤ M.
Proof.
  intros Hlen HM Hall. unfold maxjid. rewrite maxjid_from_foldl, drop_0.
  rewrite take_ge by lia. clear Hlen. revert HM. generalize 0.
  induction jl as [|k jl IH]; intros m Hm; simpl; [done|].
  apply IH.
  - intros j Hj. apply Hall. by right.
  - assert (jid k ≤ M) by (apply Hall; by left). lia.
Qed.

Lemma run_jid_bound ops v :
  let g := run ops (startup v) in
  nextjid g ≤ Z.of_nat (length ops) + 1 ∧
  ∀ j, j ∈ job_list g → jid j ≤ Z.of_nat (length ops).
Proof.
  induction ops as [|o ops IH] using rev_ind.
  - change (run [] (startup v)) with (startup v). cbv zeta.
    split; [simpl; lia|]. rewrite startup_jobs.
    intros j [-> _]%elem_of_replicate. simpl. lia.
  - rewrite run_snoc, length_app. simpl.
    destruct (run_ok ops v) as (Hlen & Hc & Hn).
    destruct IH as [IHn IHj]. set (g := run ops (startup v)) in *.
    destruct o as [p s c|p]; simpl.
    + destruct (addjob_cases g p s c) as [->|(Hp & i & j & _ & _ & ->)]; simpl.
      * split; [lia|]. intros j Hj. specialize (IHj j Hj). lia.
      * split.
        -- rewrite Z.gtb_ltb.
           destruct (Z.ltb_spec (Z.of_nat MAXJOBS) (nextjid g + 1)); lia.
        -- intros k [Hk| ->]%elem_of_insert_inv; [specialize (IHj k Hk)|simpl]; lia.
    + destruct (deletejob_cases g p) as [->|(Hp & i & j & _ & _ & ->)]; simpl.
      * split; [lia|]. intros j Hj. specialize (IHj j Hj). lia.
      * assert (∀ k, k ∈ alter clearjob i (job_list g)
                     → jid k ≤ Z.of_nat (length ops)) as Hall.
        { intros k [Hk|(x & _ & ->)]%elem_of_alter_inv; [by apply IHj|simpl; lia]. }
        split.
        -- pose proof (maxjid_lub (alter clearjob i (job_list g))
                         (Z.of_nat (length ops))) as Hm.
           rewrite length_alter in Hm. specialize (Hm Hlen ltac:(lia) Hall). lia.
        -- intros k Hk. specialize (Hall k Hk). lia.
Qed.

(** ** Uniqueness among live entries *)

Lemma pairwise_live_clear R (jl : list job_t) (i : nat) :
  pairwise_live R jl → pairwise_live R (alter clearjob i jl).
Proof.
  intros H a b j1 j2 Ha Hb L1 L2 HR.
  rewrite list_lookup_alter in Ha, Hb.
  destruct (decide (i = a)) as [->|]; [|destruct (decide (i = b)) as [->|]].
  - destruct (jl !! a); simplify_eq/=; by destruct L1.
  - destruct (jl !! b); simplify_eq/=; by destruct L2.
  - by apply (H a b j1 j2).
Qed.

Lemma pairwise_live_insert R (jl : list job_t) (i : nat) (nj : job_t) :
  (∀ a b, R a b → R b a) →
  (∀ k j, jl !! k = Some j → live j → ¬ R nj j) →
  pairwise_live R jl → pairwise_live R (<[i := nj]> jl).
Proof.
  intros Hsym Hfresh H a b j1 j2 Ha Hb L1 L2 HR.
  apply list_lookup_insert_Some in Ha as [(-> & -> & _)|(Hna & Ha)];
    apply list_lookup_insert_Some in Hb as [(Hib & Hj2 & _)|(Hnb & Hb)].
  - done.
  - by destruct (Hfresh b j2 Hb L2).
  - subst. by destruct (Hfresh a j1 Ha L1 (Hsym _ _ HR)).
  - by apply (H a b j1 j2).
Qed.

(** [fgpid] reports 0 only when no slot is in the foreground. *)
Lemma fgpid_0_no_fg jl k j :
  length jl = MAXJOBS → cleared_slots jl →
  fgpid jl = 0 → jl !! k = Some j → state j ≠ FG.
Proof.
  intros Hlen Hc Hfg Hj. unfold fgpid in Hfg.
  destruct (scan _ _) as [[m jm]|] eqn:E.
  - apply scan_Some in E as (Hm & HP%Z.eqb_eq & _).
    destruct (Hc jm) as [_ Hs]; [by eapply list_elem_of_lookup_2|done|].
    rewrite Hs in HP. discriminate.
  - apply Z.eqb_neq. by apply (scan_None _ _ k j Hlen E).
Qed.

(** [getjobpid] returns NULL for a pid of 1 or more only when no slot
    holds it. *)
Lemma getjobpid_None_absent jl p k j :
  length jl = MAXJOBS → 1 ≤ p →
  getjobpid jl p = None → jl !! k = Some j → pid j ≠ p.
Proof.
  intros Hlen Hp H Hj. unfold getjobpid in H.
  destruct (Z.ltb_spec p 1); [lia|].
  destruct (scan _ _) as [[m jm]|] eqn:E; [discriminate|].
  apply Z.eqb_neq. by apply (scan_None _ _ k j Hlen E).
Qed.

Lemma orderly_inv v g :
  orderly v g →
  table_ok g ∧ at_most_one_fg (job_list g) ∧
  unique_live jid (job_list g) ∧ unique_live pid (job_list g).
Proof.
  clear atoi strerror_errno kill write open dup2 execve_fails.
  induction 1 as [|g p s c Hg IH Hpid Hfg Hmax|g p Hg IH].
  - split; [apply startup_ok|].
    assert (∀ R, pairwise_live R (job_list (startup v))) as Hnone.
    { intros R i k j1 j2 Hi. rewrite startup_jobs in Hi.
      apply lookup_replicate in Hi as [-> _]. by intros _ []. }
    repeat split; apply Hnone.
  - destruct IH as (Hok & H1 & H2 & H3).
    split; [by apply addjob_ok|].
    destruct Hok as (Hlen & Hc & Hn).
    destruct (addjob_cases g p s c) as [->|(Hp & i & j & _ & _ & ->)]; [done|].
    simpl. split; [|split].
    + apply pairwise_live_insert; [tauto| |done].
      intros k j2 Hk _ [Hs Hs2]. simpl in Hs.
      by apply (fgpid_0_no_fg (job_list g) k j2 Hlen Hc (Hfg Hs) Hk).
    + apply pairwise_live_insert; [done| |done].
      intros k j2 Hk _ HR. simpl in HR.
      pose proof (maxjid_upper (job_list g) j2 Hlen
                    (list_elem_of_lookup_2 _ _ _ Hk)). lia.
    + apply pairwise_live_insert; [done| |done].
      intros k j2 Hk _ HR. simpl in HR.
      by apply (getjobpid_None_absent (job_list g) p k j2 Hlen Hp Hpid Hk).
  - destruct IH as (Hok & H1 & H2 & H3).
    split; [by apply deletejob_ok|].
    destruct (deletejob_cases g p) as [->|(Hp & i & j & _ & _ & ->)]; [done|].
    simpl. repeat split; by apply pairwise_live_clear.
Qed.

(** In every table that orderly calls of addjob and deletejob build from
    the startup table, at most one live entry is in the foreground, and
    the job ids and the pids of the live entries are pairwise different. *)
Lemma orderly_unique (v : bool) (g : globals) :
  orderly v g →
  at_most_one_fg (job_list g) ∧
  unique_live jid (job_list g) ∧ unique_live pid (job_list g).
Proof. intros H. by destruct (orderly_inv v g H) as (_ & ?). Qed.

(** The counter is above every job id of the table at startup, after every
    removal, and after every add that did not wrap it. *)
Lemma counter_above_startup v :
  maxjid (job_list (startup v)) < nextjid (startup v).
Proof. by vm_compute. Qed.

Lemma counter_above_delete g p g' :
  deletejob g p = (1, g') → maxjid (job_list g') < nextjid g'.
Proof.
  intros H. destruct (deletejob_cases g p) as [E|(_ & i & j & _ & _ & E)];
    rewrite E in H; [discriminate|].
  injection H as <-. simpl. lia.
Qed.

Lemma counter_above_add g p s c g' :
  table_ok g → maxjid (job_list g) < nextjid g →
  nextjid g < Z.of_nat MAXJOBS →
  fst (addjob g p s c) = (1, g') → maxjid (job_list g') < nextjid g'.
Proof.
  intros (Hlen & Hc & Hn) Hmax Hwrap H.
  destruct (addjob_cases g p s c) as [E|(_ & i & j & _ & _ & E)];
    rewrite E in H; [discriminate|].
  injection H as <-. simpl. rewrite Z.gtb_ltb.
  destruct (Z.ltb_spec (Z.of_nat MAXJOBS) (nextjid g + 1)); [lia|].
  apply Z.lt_succ_r. apply maxjid_lub; [by rewrite length_insert|lia|].
  intros k [Hk| ->]%elem_of_insert_inv; [|done].
  pose proof (maxjid_upper (job_list g) k Hlen Hk). lia.
Qed.

(** ** listjobs *)

Lemma append_assoc (a b c : string) : (a +:+ b) +:+ c = a +:+ (b +:+ c).
Proof.
  induction a as [|x a IH]; [done|].
  change (String x ((a +:+ b) +:+ c) = String x (a +:+ (b +:+ c))).
  by f_equal.
Qed.

Lemma append_nil_r (a : string) : a +:+ "" = a.
Proof.
  induction a as [|x a IH]; [done|].
  change (String x (a +:+ "") = String x a). by f_equal.
Qed.

Lemma written_app fd tr1 tr2 :
  written fd (tr1 ++ tr2) = written fd tr1 +:+ written fd tr2.
Proof.
  induction tr1 as [|e tr1 IH]; simpl; [done|].
  destruct e; try done. destruct (_ =? _); [|done].
  by rewrite IH, append_assoc.
Qed.

Lemma listjobs_from_writes jl fd i n tr :
  (∀ tr fd buf, 0 ≤ write tr fd buf) →
  listjobs_from jl fd i n tr
  = (tr ++ writes_from fd i (take n (drop i jl)), Returned).
Proof.
  intros Hw. revert i tr. induction n as [|n IH]; intros i tr; simpl.
  { by rewrite app_nil_r. }
  destruct (jl !! i) as [j|] eqn:Ei.
  - rewrite (drop_S _ _ _ Ei). simpl.
    assert (∀ buf tr k, write_or_exit fd buf tr k = k (tr ++ [FdWrite fd buf])) as Hput.
    { intros buf tr0 k. unfold write_or_exit.
      destruct (Z.ltb_spec (write tr0 fd buf) 0); [|done].
      specialize (Hw tr0 fd buf). lia. }
    destruct (decide (live j)) as [Hl|Hl]; unfold live in Hl.
    + apply Z.eqb_neq in Hl. rewrite Hl. simpl.
      rewrite !Hput, IH. by rewrite <- !app_assoc.
    + assert (pid j = 0) as Hz by (by destruct (decide (pid j = 0))).
      apply Z.eqb_eq in Hz. rewrite Hz. simpl. by rewrite IH.
  - apply lookup_ge_None in Ei. rewrite drop_ge by lia. simpl.
    by rewrite app_nil_r.
Qed.

Lemma written_writes_from fd i jl :
  written fd (writes_from fd i jl) = listing_from i jl.
Proof.
  revert i. induction jl as [|j jl IH]; intros i; simpl; [done|].
  rewrite written_app, IH. f_equal.
  destruct (decide (live j)); [|done].
  simpl. rewrite Z.eqb_refl. unfold job_line.
  by rewrite append_nil_r, !append_assoc.
Qed.

Lemma writes_from_fd fd i jl e :
  e ∈ writes_from fd i jl → ∃ text, e = FdWrite fd text.
Proof.
  revert i. induction jl as [|j jl IH]; intros i; simpl.
  { by intros ?%elem_of_nil. }
  intros [H|H]%elem_of_app; [|by eapply IH].
  destruct (decide (live j)); [|by apply elem_of_nil in H].
  repeat (apply elem_of_cons in H as [->|H]; [eauto|]).
  by apply elem_of_nil in H.
Qed.

(** C9, as the code has it: when every write succeeds, listjobs returns,
    writes to the descriptor nothing but the lines of the live entries in
    slot order, one line each and none for an empty slot, and closes the
    descriptor unless it is the standard output.  A line is the job id in
    brackets, the pid in parentheses, the state label as an 11-character
    column, the command text and a newline; the column reads "Running"
    and four spaces for [BG], "Foreground" and one space for [FG],
    "Stopped" and four spaces for [ST]. *)
Theorem listjobs_spec (jl : list job_t) (output_fd : Z) :
  length jl = MAXJOBS →
  (∀ tr fd buf, 0 ≤ write tr fd buf) →
  (∃ tr,
     listjobs jl output_fd = (tr, Returned) ∧
     written output_fd tr = listing jl ∧
     ∀ e, e ∈ tr →
       (∃ text, e = FdWrite output_fd text) ∨
       (e = FdClose output_fd ∧ output_fd ≠ STDOUT_FILENO)) ∧
  (∀ i j,
     job_line i j
     = "[" +:+ fmt_d (jid j) +:+ "] (" +:+ fmt_d (pid j) +:+ ") "
       +:+ state_label i j +:+ cmdline j +:+ NL) ∧
  (∀ i j,
     (state j = BG → state_label i j = "Running    ") ∧
     (state j = FG → state_label i j = "Foreground ") ∧
     (state j = ST → state_label i j = "Stopped    ")).
Proof.
  intros Hlen Hw. split; [|split].
  - unfold listjobs. rewrite (listjobs_from_writes jl output_fd 0 MAXJOBS [] Hw).
    rewrite drop_0, take_ge by lia. simpl.
    destruct (Z.eqb_spec output_fd STDOUT_FILENO) as [E|E]; simpl.
    + eexists. split; [done|]. split; [apply written_writes_from|].
      intros e He. left. by apply writes_from_fd in He.
    + eexists. split; [done|]. split.
      * rewrite written_app, written_writes_from. simpl.
        apply append_nil_r.
      * intros e [He|He]%elem_of_app.
        -- left. by apply writes_from_fd in He.
        -- apply list_elem_of_singleton in He as ->. by right.
  - done.
  - intros i j. unfold state_label. repeat split; by intros ->.
Qed.

(** ** The signal forwarders *)

(** [fgpid] is the pid of the foreground slot of lowest index. *)
Lemma fgpid_first jl i j :
  length jl = MAXJOBS → jl !! i = Some j → state j = FG →
  (∀ m j', (m < i)%nat → jl !! m = Some j' → state j' ≠ FG) →
  fgpid jl = pid j.
Proof.
  intros Hlen Hj Hs Hb. unfold fgpid.
  rewrite (scan_first (λ j, state j =? FG) jl i j); try done.
  - by apply Z.eqb_eq.
  - intros m j' Hm Hj'. apply Z.eqb_neq. by apply (Hb m).
Qed.

(** C7: when [fgpid] reports 0 each forwarder returns at once: it sends
    nothing and prints nothing.  Otherwise it makes one call of [kill],
    with the negated foreground pid and its own signal, and prints only
    if that call fails.  Either way the globals it hands back, the job
    list with every pid, job id, state and command text among them, are
    the ones it was given. *)
Theorem forwarders_spec (g : globals) :
  let fid := fgpid (job_list g) in
  (fid = 0 →
     sigint_handler g = (g, [], Returned) ∧
     sigtstp_handler g = (g, [], Returned)) ∧
  (fid ≠ 0 →
     sigint_handler g
     = (if kill (- fid) SIGINT =? -1
        then (g, [Kill (- fid) SIGINT;
                  Stdout ("error sigint." +:+ ": " +:+ strerror_errno +:+ NL)],
              Exited 1)
        else (g, [Kill (- fid) SIGINT], Returned)) ∧
     sigtstp_handler g
     = (if kill (- fid) SIGTSTP =? -1
        then (g, [Kill (- fid) SIGTSTP;
                  Stdout ("error sigtstp." +:+ ": " +:+ strerror_errno +:+ NL)],
              Exited 1)
        else (g, [Kill (- fid) SIGTSTP], Returned))) ∧
  fst (fst (sigint_handler g)) = g ∧
  fst (fst (sigtstp_handler g)) = g.
Proof.
  intros fid. unfold sigint_handler, sigtstp_handler. fold fid.
  split; [|split; [|split]].
  - intros ->. done.
  - intros H%Z.eqb_neq. rewrite H. split; by destruct (_ =? -1).
  - destruct (fid =? 0); [done|]. by destruct (_ =? -1).
  - destruct (fid =? 0); [done|]. by destruct (_ =? -1).
Qed.

(** ** The reaper *)

Lemma getjobpid_Some jl p i :
  getjobpid jl p = Some i →
  1 ≤ p ∧ ∃ j, jl !! i = Some j ∧ pid j = p ∧
    scan (λ j, pid j =? p) jl = Some (i, j).
Proof.
  unfold getjobpid. destruct (Z.ltb_spec p 1); [discriminate|].
  destruct (scan _ _) as [[k j]|] eqn:E; [|discriminate].
  intros [= <-]. split; [done|]. exists j.
  apply scan_Some in E as (Hj & Hp%Z.eqb_eq & _). done.
Qed.

(** What the body of the loop does with one child that [waitpid]
    reported.  If no slot holds the pid it prints the application error
    and exits with status 1.  Otherwise, with [job] the entry of the slot that
    [getjobpid] found: after a normal exit the slot is cleared and the
    counter recomputed, with a message only in verbose mode; after a stop
    the state of the slot becomes [ST] and "Job [jid] (pid) stopped by
    signal N" is printed, verbose or not; after a kill by a signal "Job
    [jid] (pid) terminated by signal N" is printed, the slot is cleared and
    the counter recomputed; any other status changes nothing. *)
Lemma reap_child_spec (g : globals) (wpid : Z) (st : wstatus) :
  match getjobpid (job_list g) wpid with
  | None =>
      reap_child g wpid st
      = (g, [Stdout ("sigchld getjobpid error" +:+ NL)], Exited 1)
  | Some i =>
      ∃ job, job_list g !! i = Some job ∧ pid job = wpid ∧
        let removed :=
          let jl' := <[i := clearjob job]> (job_list g) in
          {| verbose := verbose g; nextjid := maxjid jl' + 1; job_list := jl' |} in
        match st with
        | WExited _ =>
            reap_child g wpid st
            = (removed,
               if verbose g
               then [Stdout ("[" +:+ fmt_d (jid job) +:+ "] (" +:+ fmt_d (pid job)
                             +:+ ") " +:+ cmdline job +:+ " deleted" +:+ NL)]
               else [],
               Returned)
        | WStopped n =>
            reap_child g wpid st
            = ({| verbose := verbose g; nextjid := nextjid g;
                  job_list := <[i := {| pid := pid job; jid := jid job;
                                        state := ST; cmdline := cmdline job |}]>
                                (job_list g) |},
               [Stdout ("Job [" +:+ fmt_d (jid job) +:+ "] (" +:+ fmt_d (pid job)
                        +:+ ") stopped by signal " +:+ fmt_d n +:+ NL)],
               Returned)
        | WSignaled n =>
            reap_child g wpid st
            = (removed,
               [Stdout ("Job [" +:+ fmt_d (jid job) +:+ "] (" +:+ fmt_d (pid job)
                        +:+ ") terminated by signal " +:+ fmt_d n +:+ NL)],
               Returned)
        | WOther => reap_child g wpid st = (g, [], Returned)
        end
  end.
Proof.
  unfold reap_child. destruct (getjobpid (job_list g) wpid) as [i|] eqn:E; [|done].
  apply getjobpid_Some in E as (Hp & job & Hj & Hpid & Hscan).
  exists job. split; [done|]. split; [done|].
  rewrite (list_lookup_total_correct _ _ _ Hj).
  assert (snd (deletejob g wpid)
          = {| verbose := verbose g;
               nextjid := maxjid (<[i := clearjob job]> (job_list g)) + 1;
               job_list := <[i := clearjob job]> (job_list g) |}) as Hdel.
  { unfold deletejob. destruct (Z.ltb_spec wpid 1); [lia|].
    rewrite Hscan. simpl. by rewrite (alter_clearjob _ _ _ Hj). }
  destruct st; simpl; rewrite ?Hdel; try done.
  unfold with_jobs. do 3 f_equal.
  rewrite list_insert_alter. apply list_alter_ext; [|done].
  intros x Hx. by simplify_eq.
Qed.

(** The handler passes every child that [waitpid] reports to [reap_child],
    in the order of the reports, and stops at the first exit. *)
Lemma sigchld_handler_reaps g wpid st ws last echild :
  0 < wpid →
  sigchld_handler g ((wpid, st) :: ws) last echild
  = match reap_child g wpid st with
    | (g', tr, Returned) =>
        let '(g'', tr', o) := sigchld_handler g' ws last echild in
        (g'', tr ++ tr', o)
    | r => r
    end.
Proof.
  intros Hw. simpl. rewrite Z.gtb_ltb.
  destruct (Z.ltb_spec 0 wpid); [done|lia].
Qed.

(** When no child is left, [waitpid] fails with [ECHILD] and the handler
    returns. *)
Lemma sigchld_handler_drained g :
  sigchld_handler g [] (-1) true = (g, [], Returned).
Proof. done. Qed.

(** C3: what [sigchld_handler] does with a child that [waitpid] reports.
    If no slot holds the pid the handler prints the application error and
    ends the shell with status 1, whatever else [waitpid] would report.
    Otherwise, with [job] the entry of the slot that [getjobpid] finds:
    after a normal exit the slot is cleared and the counter recomputed,
    with a message only in verbose mode; after a stop the state of the
    slot becomes [ST] and "Job [jid] (pid) stopped by signal N" is
    printed, verbose or not; after a kill by a signal "Job [jid] (pid)
    terminated by signal N" is printed, the slot is cleared and the
    counter recomputed; any other status changes nothing.  In each of
    these cases the handler goes on with the table it has made and with
    what [waitpid] reports next, and what it prints for this child comes
    first. *)
Theorem sigchld_handler_spec (g : globals) (wpid : Z) (st : wstatus)
    (ws : list (Z * wstatus)) (last : Z) (echild : bool) :
  0 < wpid →
  let goes_on (g1 : globals) (tr1 : list event) : Prop :=
    sigchld_handler g ((wpid, st) :: ws) last echild
    = (fst (fst (sigchld_handler g1 ws last echild)),
       tr1 ++ snd (fst (sigchld_handler g1 ws last echild)),
       snd (sigchld_handler g1 ws last echild)) in
  match getjobpid (job_list g) wpid with
  | None =>
      sigchld_handler g ((wpid, st) :: ws) last echild
      = (g, [Stdout ("sigchld getjobpid error" +:+ NL)], Exited 1)
  | Some i =>
      ∃ job, job_list g !! i = Some job ∧ pid job = wpid ∧
        let removed :=
          let jl' := <[i := clearjob job]> (job_list g) in
          {| verbose := verbose g; nextjid := maxjid jl' + 1; job_list := jl' |} in
        match st with
        | WExited _ =>
            goes_on removed
              (if verbose g
               then [Stdout ("[" +:+ fmt_d (jid job) +:+ "] (" +:+ fmt_d (pid job)
                             +:+ ") " +:+ cmdline job +:+ " deleted" +:+ NL)]
               else [])
        | WStopped n =>
            goes_on
              {| verbose := verbose g; nextjid := nextjid g;
                 job_list := <[i := {| pid := pid job; jid := jid job;
                                       state := ST; cmdline := cmdline job |}]>
                               (job_list g) |}
              [Stdout ("Job [" +:+ fmt_d (jid job) +:+ "] (" +:+ fmt_d (pid job)
                       +:+ ") stopped by signal " +:+ fmt_d n +:+ NL)]
        | WSignaled n =>
            goes_on removed
              [Stdout ("Job [" +:+ fmt_d (jid job) +:+ "] (" +:+ fmt_d (pid job)
                       +:+ ") terminated by signal " +:+ fmt_d n +:+ NL)]
        | WOther => goes_on g []
        end
  end.
Proof.
  intros Hw goes_on. unfold goes_on. rewrite (sigchld_handler_reaps _ _ _ _ _ _ Hw).
  pose proof (reap_child_spec g wpid st) as H.
  destruct (getjobpid (job_list g) wpid) as [i|]; [|by rewrite H].
  destruct H as (job & Hjob & Hpid & H). exists job.
  split; [done|]. split; [done|]. cbv zeta in *.
  destruct st; rewrite H;
    by destruct (sigchld_handler _ ws last echild) as [[g2 tr2] o].
Qed.

(** ** bg and fg with a job that does not exist *)

(** C2, where the code departs from it: when [argv[1]] names no job, the
    bg branch and the fg branch print "No Such Job", leave the globals
    alone and send no signal, and then read [stjob->state] through the
    NULL pointer instead of returning. *)
Theorem no_such_job_faults (g : globals) (tok : cmdline_tokens) (a : string) :
  argc tok = 2 →
  argv tok !! 1%nat = Some a →
  job_of_arg (job_list g) a = None →
  eval_bg g tok = (g, [Stderr ("No Such Job" +:+ NL)], Fault) ∧
  eval_fg g tok = (g, [Stderr ("No Such Job" +:+ NL)], Fault).
Proof.
  intros Hc Ha Hj. unfold eval_bg, eval_fg.
  rewrite Hc, Ha, Hj. done.
Qed.

(** ** The child and a redirection that cannot be opened *)

(** C4, where the code departs from it: when the input file, or with no
    input redirection the output file, cannot be opened, the child prints
    the error and runs no program, but it leaves [eval] by [return] and
    not by [exit]: it does not terminate. *)
Theorem child_open_failure_returns (tok : cmdline_tokens) (f : string) :
  open f = -1 →
  (infile tok = Some f ∨ (infile tok = None ∧ outfile tok = Some f)) →
  snd (eval_child tok) = Returned ∧
  (∀ status, snd (eval_child tok) ≠ Exited status) ∧
  (∀ path args, snd (eval_child tok) ≠ Execed path args) ∧
  ((infile tok = Some f ∧ fst (eval_child tok) = [perror "Input Error"]) ∨
   (infile tok = None ∧ fst (eval_child tok) = [perror "Output Error"])).
Proof.
  intros Ho [Hi|[Hi Hout]]; unfold eval_child; rewrite Hi.
  - rewrite Ho. simpl. repeat split; try done. by left.
  - rewrite Hout, Ho. simpl. repeat split; try done. by right.
Qed.

(** The proofs below do not consult the operating system unless their
    statement does. *)
Ltac no_os :=
  try clear getpgid; try clear atoi; try clear strerror_errno;
  try clear kill; try clear write; try clear open; try clear dup2;
  try clear execve_fails.

(** ** Looking jobs up *)

(** A lookup by a key [f] of the entries: what [getjobpid] and [getjobjid]
    do once the key is known to be 1 or more. *)
Lemma scan_key_Some (f : job_t → Z) jl id i :
  length jl = MAXJOBS →
  fst <$> scan (λ j, f j =? id) jl = Some i ↔
  ∃ j, jl !! i = Some j ∧ f j = id ∧
       ∀ m j', (m < i)%nat → jl !! m = Some j' → f j' ≠ id.
Proof.
  intros Hlen. split.
  - destruct (scan _ jl) as [[k j]|] eqn:E; [|discriminate].
    intros [= <-]. exists j.
    apply scan_Some in E as (Hj & Hf%Z.eqb_eq & Hb).
    split; [done|]. split; [done|].
    intros m j' Hm Hj'. apply Z.eqb_neq. by apply (Hb m).
  - intros (j & Hj & Hf & Hb).
    rewrite (scan_first (λ j, f j =? id) jl i j); try done.
    + by apply Z.eqb_eq.
    + intros m j' Hm Hj'. apply Z.eqb_neq. by apply (Hb m).
Qed.

Lemma scan_key_None (f : job_t → Z) jl id :
  length jl = MAXJOBS →
  fst <$> scan (λ j, f j =? id) jl = None ↔
  ∀ m j', jl !! m = Some j' → f j' ≠ id.
Proof.
  intros Hlen. split.
  - destruct (scan _ jl) as [[k j]|] eqn:E; [discriminate|].
    intros _ m j' Hj'. apply Z.eqb_neq. by apply (scan_None _ _ m j' Hlen E).
  - intros H. rewrite scan_absent; [done|].
    intros m j Hj. apply Z.eqb_neq. by apply (H m).
Qed.

(** X1: getjobpid returns the slot of lowest index that holds the pid,
    and NULL exactly when the pid is below 1 or no slot holds it. *)
Theorem getjobpid_spec (jl : list job_t) (p : Z) :
  length jl = MAXJOBS →
  (∀ i, getjobpid jl p = Some i ↔
        1 ≤ p ∧ ∃ j, jl !! i = Some j ∧ pid j = p ∧
          ∀ m j', (m < i)%nat → jl !! m = Some j' → pid j' ≠ p) ∧
  (getjobpid jl p = None ↔
   p < 1 ∨ ∀ m j', jl !! m = Some j' → pid j' ≠ p).
Proof.
  no_os. intros Hlen. unfold getjobpid. destruct (Z.ltb_spec p 1).
  - split; [intros i; split; [discriminate|lia]|]. split; auto.
  - split.
    + intros i. rewrite (scan_key_Some pid jl p i Hlen). split; [auto|tauto].
    + rewrite (scan_key_None pid jl p Hlen). split; [auto|].
      intros [?|?]; [lia|done].
Qed.

(** X2: getjobjid returns the slot of lowest index that holds the job id,
    and NULL exactly when the job id is below 1 or no slot holds it. *)
Theorem getjobjid_spec (jl : list job_t) (id : Z) :
  length jl = MAXJOBS →
  (∀ i, getjobjid jl id = Some i ↔
        1 ≤ id ∧ ∃ j, jl !! i = Some j ∧ jid j = id ∧
          ∀ m j', (m < i)%nat → jl !! m = Some j' → jid j' ≠ id) ∧
  (getjobjid jl id = None ↔
   id < 1 ∨ ∀ m j', jl !! m = Some j' → jid j' ≠ id).
Proof.
  no_os. intros Hlen. unfold getjobjid. destruct (Z.ltb_spec id 1).
  - split; [intros i; split; [discriminate|lia]|]. split; auto.
  - split.
    + intros i. rewrite (scan_key_Some jid jl id i Hlen). split; [auto|tauto].
    + rewrite (scan_key_None jid jl id Hlen). split; [auto|].
      intros [?|?]; [lia|done].
Qed.

(** [pid2jid] reads the job id through the pointer that [getjobpid]
    returns. *)
Lemma pid2jid_getjobpid jl p :
  pid2jid jl p = match getjobpid jl p with
                 | Some i => jid (jl !!! i)
                 | None => 0
                 end.
Proof.
  unfold pid2jid, getjobpid. destruct (p <? 1); [done|].
  destruct (scan _ jl) as [[k j]|] eqn:E; [|done]. simpl.
  apply scan_Some in E as (Hj & _). by rewrite (list_lookup_total_correct _ _ _ Hj).
Qed.

(** X3: pid2jid is the job id of the slot of lowest index that holds the
    pid, and 0 when the pid is below 1 or no slot holds it; so 0 is
    returned for a pid that is in the table only if its job id is 0. *)
Theorem pid2jid_spec (jl : list job_t) (p : Z) :
  length jl = MAXJOBS →
  (∀ i j, 1 ≤ p → jl !! i = Some j → pid j = p →
     (∀ m j', (m < i)%nat → jl !! m = Some j' → pid j' ≠ p) →
     pid2jid jl p = jid j) ∧
  ((p < 1 ∨ ∀ m j', jl !! m = Some j' → pid j' ≠ p) → pid2jid jl p = 0).
Proof.
  intros Hlen. rewrite pid2jid_getjobpid. split.
  - intros i j Hp Hj Hpid Hb.
    assert (getjobpid jl p = Some i) as ->.
    { unfold getjobpid. destruct (Z.ltb_spec p 1); [lia|].
      apply scan_key_Some; [done|]. by exists j. }
    by rewrite (list_lookup_total_correct _ _ _ Hj).
  - intros H. assert (getjobpid jl p = None) as ->; [|done].
    unfold getjobpid. destruct (Z.ltb_spec p 1); [done|].
    apply scan_key_None; [done|]. destruct H as [?|?]; [lia|done].
Qed.

(** X4: fgpid is the pid of the foreground slot of lowest index, and 0
    when no slot is in the foreground; in a table whose empty slots are
    cleared it is 0 only then. *)
Theorem fgpid_spec (jl : list job_t) :
  length jl = MAXJOBS →
  (∀ i j, jl !! i = Some j → state j = FG →
     (∀ m j', (m < i)%nat → jl !! m = Some j' → state j' ≠ FG) →
     fgpid jl = pid j) ∧
  ((∀ m j', jl !! m = Some j' → state j' ≠ FG) → fgpid jl = 0) ∧
  (cleared_slots jl →
   (fgpid jl = 0 ↔ ∀ m j', jl !! m = Some j' → state j' ≠ FG)).
Proof.
  intros Hlen.
  assert ((∀ m j', jl !! m = Some j' → state j' ≠ FG) → fgpid jl = 0) as Hnone.
  { intros H. unfold fgpid. rewrite scan_absent; [done|].
    intros m j Hj. apply Z.eqb_neq. by apply (H m). }
  split; [|split; [done|]].
  - intros i j Hj Hs Hb. by apply (fgpid_first jl i j).
  - intros Hc. split; [|done].
    intros H0 m j' Hj'. by apply (fgpid_0_no_fg jl m j' Hlen Hc H0).
Qed.

(** ** Adding, removing and looking up *)

(** Two lists whose slots answer the test alike are scanned alike. *)
Lemma scan_from_index_ext P Q (jl jl' : list job_t) i n :
  (∀ m, P <$> jl !! m = Q <$> jl' !! m) →
  fst <$> scan_from P jl i n = fst <$> scan_from Q jl' i n.
Proof.
  intros H. revert i. induction n as [|n IH]; intros i; simpl; [done|].
  specialize (H i). destruct (jl !! i) as [j|], (jl' !! i) as [j'|];
    simplify_eq/=; try done.
  rewrite H. destruct (Q j'); [done|apply IH].
Qed.

Lemma addjob_success g p s c g' :
  fst (addjob g p s c) = (1, g') →
  1 ≤ p ∧ ∃ i j,
    job_list g !! i = Some j ∧ pid j = 0 ∧
    (∀ m j', (m < i)%nat → job_list g !! m = Some j' → pid j' ≠ 0) ∧
    g' = {| verbose := verbose g;
            nextjid := if nextjid g + 1 >? Z.of_nat MAXJOBS then 1
                       else nextjid g + 1;
            job_list := <[i := {| pid := p; jid := nextjid g;
                                  state := s; cmdline := c |}]> (job_list g) |}.
Proof.
  unfold addjob. destruct (Z.ltb_spec p 1); [discriminate|].
  destruct (scan _ _) as [[i j]|] eqn:E; [|discriminate].
  simpl. intros [= <-]. split; [lia|]. exists i, j.
  apply scan_Some in E as (Hj & Hz%Z.eqb_eq & Hb).
  repeat split; try done. intros m j' Hm Hj'. apply Z.eqb_neq. by apply (Hb m).
Qed.

Lemma deletejob_success g p g' :
  deletejob g p = (1, g') →
  1 ≤ p ∧ ∃ i j,
    job_list g !! i = Some j ∧ pid j = p ∧
    (∀ m j', (m < i)%nat → job_list g !! m = Some j' → pid j' ≠ p) ∧
    g' = {| verbose := verbose g;
            nextjid := maxjid (<[i := clearjob j]> (job_list g)) + 1;
            job_list := <[i := clearjob j]> (job_list g) |}.
Proof.
  unfold deletejob. destruct (Z.ltb_spec p 1); [discriminate|].
  destruct (scan _ _) as [[i j]|] eqn:E; [|discriminate].
  intros [= <-]. split; [lia|]. exists i, j.
  apply scan_Some in E as (Hj & Hz%Z.eqb_eq & Hb).
  rewrite (alter_clearjob _ _ _ Hj).
  repeat split; try done. intros m j' Hm Hj'. apply Z.eqb_neq. by apply (Hb m).
Qed.

(** Writing a slot whose old and new pid both differ from [q] changes no
    lookup of [q]. *)
Lemma lookup_other_pid (jl : list job_t) (i : nat) (old new : job_t) (q : Z) :
  jl !! i = Some old → pid old ≠ q → pid new ≠ q →
  getjobpid (<[i := new]> jl) q = getjobpid jl q ∧
  pid2jid (<[i := new]> jl) q = pid2jid jl q.
Proof.
  intros Hold Ho Hn.
  assert (getjobpid (<[i := new]> jl) q = getjobpid jl q) as Hsame.
  { unfold getjobpid. destruct (q <? 1); [done|].
    apply scan_from_index_ext. intros m.
    destruct (decide (m = i)) as [->|Hne].
    - rewrite list_lookup_insert_eq by by eapply lookup_lt_Some.
      rewrite Hold. simpl. f_equal.
      apply Z.eqb_neq in Ho, Hn. by rewrite Ho, Hn.
    - by rewrite list_lookup_insert_ne. }
  split; [done|]. rewrite !pid2jid_getjobpid, Hsame.
  destruct (getjobpid jl q) as [k|] eqn:E; [|done].
  apply getjobpid_Some in E as (_ & j & Hj & Hp & _).
  assert (k ≠ i) by (intros ->; congruence).
  by rewrite !list_lookup_total_alt, list_lookup_insert_ne.
Qed.

Lemma addjob_found g p s c g' :
  length (job_list g) = MAXJOBS →
  getjobpid (job_list g) p = None →
  fst (addjob g p s c) = (1, g') →
  ∃ i, getjobpid (job_list g') p = Some i ∧
       job_list g' !! i
       = Some {| pid := p; jid := nextjid g; state := s; cmdline := c |} ∧
       pid2jid (job_list g') p = nextjid g.
Proof.
  intros Hlen Hnew Hadd.
  apply addjob_success in Hadd as (Hp & i & j & Hj & Hz & Hb & ->). simpl.
  pose proof (lookup_lt_Some _ _ _ Hj) as Hi.
  assert (getjobpid (<[i := {| pid := p; jid := nextjid g; state := s;
                               cmdline := c |}]> (job_list g)) p = Some i) as Hget.
  { unfold getjobpid. destruct (Z.ltb_spec p 1); [lia|].
    apply scan_key_Some; [by rewrite length_insert|].
    eexists. split; [by apply list_lookup_insert_eq|]. split; [done|].
    intros m j' Hm Hj'. rewrite list_lookup_insert_ne in Hj' by lia.
    by apply (getjobpid_None_absent (job_list g) p m j' Hlen Hp Hnew). }
  exists i. split; [done|]. split; [by apply list_lookup_insert_eq|].
  rewrite pid2jid_getjobpid, Hget, list_lookup_total_alt.
  by rewrite list_lookup_insert_eq.
Qed.

Lemma addjob_succeeds g p s c k j :
  length (job_list g) = MAXJOBS → 1 ≤ p →
  job_list g !! k = Some j → pid j = 0 →
  ∃ g', fst (addjob g p s c) = (1, g').
Proof.
  intros Hlen Hp Hj Hz. unfold addjob. destruct (Z.ltb_spec p 1); [lia|].
  destruct (scan _ _) as [[i ji]|] eqn:E; [by eexists|].
  apply (scan_None _ _ k j Hlen) in E; [|done].
  apply Z.eqb_neq in E. done.
Qed.

Lemma addjob_full g p s c :
  1 ≤ p → (∀ m j, job_list g !! m = Some j → pid j ≠ 0) →
  addjob g p s c = (0, g, [Stdout ("Tried to create too many jobs" +:+ NL)]).
Proof.
  intros Hp Hfull. unfold addjob. destruct (Z.ltb_spec p 1); [lia|].
  rewrite scan_absent; [done|].
  intros m j Hj. apply Z.eqb_neq. by apply (Hfull m).
Qed.

(** X5: a job that addjob has stored is found again: getjobpid returns its
    slot, which holds the pid, the job id that was next, the state and the
    command line, pid2jid returns that job id, and the lookups of every
    other pid are what they were.  The pid was not in the table before. *)
Theorem addjob_then_lookup (g g' : globals) (p s : Z) (c : string) :
  length (job_list g) = MAXJOBS →
  getjobpid (job_list g) p = None →
  fst (addjob g p s c) = (1, g') →
  (∃ i, getjobpid (job_list g') p = Some i ∧
        job_list g' !! i
        = Some {| pid := p; jid := nextjid g; state := s; cmdline := c |}) ∧
  pid2jid (job_list g') p = nextjid g ∧
  (∀ q, q ≠ p →
     getjobpid (job_list g') q = getjobpid (job_list g) q ∧
     pid2jid (job_list g') q = pid2jid (job_list g) q).
Proof.
  intros Hlen Hnew Hadd.
  destruct (addjob_found g p s c g' Hlen Hnew Hadd) as (i & Hget & Hslot & Hjid).
  split; [by exists i|]. split; [done|].
  apply addjob_success in Hadd as (Hp & k & j & Hj & Hz & Hb & ->). simpl.
  intros q Hq. destruct (Z.ltb_spec q 1) as [Hq1|Hq1].
  - unfold getjobpid, pid2jid. by destruct (Z.ltb_spec q 1); [|lia].
  - apply (lookup_other_pid _ _ j); [done|lia|simpl; congruence].
Qed.

Lemma deletejob_gone g p g' :
  length (job_list g) = MAXJOBS →
  unique_live pid (job_list g) →
  deletejob g p = (1, g') →
  getjobpid (job_list g') p = None.
Proof.
  intros Hlen Huniq Hdel.
  apply deletejob_success in Hdel as (Hp & i & j & Hj & Hpid & Hb & ->). simpl.
  unfold getjobpid. destruct (Z.ltb_spec p 1); [lia|].
  apply scan_key_None; [by rewrite length_insert|].
  intros m j' Hj'.
  apply list_lookup_insert_Some in Hj' as [(-> & <- & _)|(Hne & Hj')].
  - simpl. lia.
  - intros Hp'. apply Hne.
    apply (Huniq i m j j' Hj Hj'); unfold live; lia.
Qed.

(** X6: in a table whose live pids are pairwise different, a job that
    deletejob has removed is gone: getjobpid returns NULL for its pid,
    pid2jid returns 0, and the lookups of every other pid are what they
    were. *)
Theorem deletejob_then_lookup (g g' : globals) (p : Z) :
  length (job_list g) = MAXJOBS →
  unique_live pid (job_list g) →
  deletejob g p = (1, g') →
  getjobpid (job_list g') p = None ∧
  pid2jid (job_list g') p = 0 ∧
  (∀ q, q ≠ p →
     getjobpid (job_list g') q = getjobpid (job_list g) q ∧
     pid2jid (job_list g') q = pid2jid (job_list g) q).
Proof.
  no_os. intros Hlen Huniq Hdel.
  pose proof (deletejob_gone g p g' Hlen Huniq Hdel) as Hgone.
  split; [done|]. split.
  - by rewrite pid2jid_getjobpid, Hgone.
  - apply deletejob_success in Hdel as (Hp & i & j & Hj & Hpid & Hb & ->). simpl.
    intros q Hq. destruct (Z.ltb_spec q 1) as [Hq1|Hq1].
    + unfold getjobpid, pid2jid. by destruct (Z.ltb_spec q 1); [|lia].
    + apply (lookup_other_pid _ _ j); [done|lia|simpl; lia].
Qed.

(** X7: initjobs clears a table of [MAXJOBS] slots whatever it held:
    every slot has pid 0, job id 0, state [UNDEF] and an empty command
    line, so that no job is in the foreground, the largest job id is 0 and
    no pid and no job id is found. *)
Theorem initjobs_clears (jl : list job_t) :
  length jl = MAXJOBS →
  initjobs jl
  = replicate MAXJOBS {| pid := 0; jid := 0; state := UNDEF; cmdline := "" |} ∧
  fgpid (initjobs jl) = 0 ∧
  maxjid (initjobs jl) = 0 ∧
  (∀ p, getjobpid (initjobs jl) p = None) ∧
  (∀ id, getjobjid (initjobs jl) id = None).
Proof.
  intros Hlen.
  assert (initjobs jl = replicate MAXJOBS
            {| pid := 0; jid := 0; state := UNDEF; cmdline := "" |}) as ->.
  { do 17 (destruct jl as [|? jl]; [try discriminate Hlen|]);
      [reflexivity|discriminate Hlen]. }
  split; [done|]. split; [done|]. split; [done|].
  split.
  - intros p. unfold getjobpid. destruct (Z.ltb_spec p 1); [done|].
    apply scan_key_None; [done|].
    intros m j' [-> _]%lookup_replicate. simpl. lia.
  - intros id. unfold getjobjid. destruct (Z.ltb_spec id 1); [done|].
    apply scan_key_None; [done|].
    intros m j' [-> _]%lookup_replicate. simpl. lia.
Qed.

Lemma foldl_max_attained (jl : list job_t) (m : Z) :
  foldl (λ a j, Z.max a (jid j)) m jl = m ∨
  ∃ j, j ∈ jl ∧ jid j = foldl (λ a j, Z.max a (jid j)) m jl.
Proof.
  revert m. induction jl as [|k jl IH]; intros m; simpl; [by left|].
  destruct (IH (Z.max m (jid k))) as [E|(j & Hj & E)].
  - rewrite E. destruct (Z.max_spec m (jid k)) as [[_ ->]|[_ ->]].
    + right. exists k. split; [by left|done].
    + by left.
  - right. exists j. split; [by right|done].
Qed.

(** X8: maxjid is the least bound of the job ids of the table that is
    not negative: no slot has a larger job id, and it is 0 or the job id
    of a slot. *)
Theorem maxjid_spec (jl : list job_t) :
  length jl = MAXJOBS →
  0 ≤ maxjid jl ∧
  (∀ j, j ∈ jl → jid j ≤ maxjid jl) ∧
  (maxjid jl = 0 ∨ ∃ j, j ∈ jl ∧ jid j = maxjid jl).
Proof.
  intros Hlen. split; [|split].
  - unfold maxjid. rewrite maxjid_from_foldl, drop_0, take_ge by lia.
    assert (∀ (l : list job_t) m, m ≤ foldl (λ a j, Z.max a (jid j)) m l) as H.
    { induction l as [|k l IH]; intros m; simpl; [done|].
      etransitivity; [|apply IH]. lia. }
    apply H.
  - intros j Hj. by apply maxjid_upper.
  - unfold maxjid. rewrite maxjid_from_foldl, drop_0, take_ge by lia.
    apply foldl_max_attained.
Qed.

(** ** How many jobs the table holds *)

Lemma live_count_le jl : (live_count jl ≤ length jl)%nat.
Proof. apply length_filter. Qed.

Lemma live_count_insert (jl : list job_t) (i : nat) (old new : job_t) :
  jl !! i = Some old →
  (live_count (<[i := new]> jl) + (if decide (live old) then 1 else 0)
   = live_count jl + (if decide (live new) then 1 else 0))%nat.
Proof.
  intros Hold. unfold live_count.
  rewrite <- (take_drop_middle jl i old Hold) at 2.
  rewrite insert_take_drop by by eapply lookup_lt_Some.
  rewrite !filter_app, !filter_cons, !length_app.
  destruct (decide (live old)), (decide (live new)); simpl; lia.
Qed.

Lemma live_count_full jl :
  live_count jl = length jl ↔ ∀ m j, jl !! m = Some j → pid j ≠ 0.
Proof.
  unfold live_count. induction jl as [|k jl IH]; simpl.
  { split; [by intros _ m j ?|done]. }
  rewrite filter_cons. pose proof (length_filter live jl) as Hle.
  destruct (decide (live k)) as [Hk|Hk]; simpl.
  - split.
    + intros H m j Hj. destruct m as [|m]; simpl in Hj; [by simplify_eq|].
      apply (proj1 IH ltac:(lia) m j Hj).
    + intros H. f_equal. apply IH. intros m j Hj. by apply (H (S m)).
  - split; [lia|]. intros H. destruct Hk. by apply (H 0%nat k).
Qed.

(** X9: addjob with a pid of 1 or more succeeds exactly when fewer than
    [MAXJOBS] entries are live; a successful addjob makes one more entry
    live and a successful deletejob one less. *)
Theorem live_count_changes (g : globals) :
  length (job_list g) = MAXJOBS →
  (∀ p s c, 1 ≤ p →
     (fst (fst (addjob g p s c)) = 1 ↔ (live_count (job_list g) < MAXJOBS)%nat)) ∧
  (∀ p s c g', fst (addjob g p s c) = (1, g') →
     live_count (job_list g') = S (live_count (job_list g))) ∧
  (∀ p g', deletejob g p = (1, g') →
     S (live_count (job_list g')) = live_count (job_list g)).
Proof.
  intros Hlen. pose proof (live_count_le (job_list g)) as Hle.
  split; [|split].
  - intros p s c Hp. split.
    + intros H. destruct (addjob g p s c) as [[r g'] tr] eqn:E. simpl in H. subst r.
      assert (fst (addjob g p s c) = (1, g')) as Ha by by rewrite E.
      apply addjob_success in Ha as (_ & i & j & Hj & Hz & _).
      destruct (decide (live_count (job_list g) = MAXJOBS)) as [Hfull|]; [|lia].
      rewrite <- Hlen in Hfull. by destruct (proj1 (live_count_full _) Hfull i j).
    + intros Hlt. unfold addjob. destruct (Z.ltb_spec p 1); [lia|].
      destruct (scan _ _) as [[i j]|] eqn:E; [done|].
      assert (live_count (job_list g) = length (job_list g)); [|lia].
      apply live_count_full. intros m j Hj.
      apply Z.eqb_neq. by apply (scan_None _ _ m j Hlen E).
  - intros p s c g' Ha.
    apply addjob_success in Ha as (Hp & i & j & Hj & Hz & _ & ->). simpl.
    pose proof (live_count_insert (job_list g) i j
                  {| pid := p; jid := nextjid g; state := s; cmdline := c |} Hj) as H.
    destruct (decide (live j)) as [Hl|_]; [by destruct Hl|].
    destruct (decide (live _)) as [_|Hl]; [lia|]. destruct Hl. unfold live. simpl. lia.
  - intros p g' Hd.
    apply deletejob_success in Hd as (Hp & i & j & Hj & Hpid & _ & ->). simpl.
    pose proof (live_count_insert (job_list g) i j (clearjob j) Hj) as H.
    destruct (decide (live j)) as [_|Hl]; [|destruct Hl; unfold live; lia].
    destruct (decide (live (clearjob j))) as [Hl|_]; [by destruct Hl|]. lia.
Qed.

(** ** The reaper and the table *)

Lemma deletejob_found g p i :
  getjobpid (job_list g) p = Some i →
  ∃ j, job_list g !! i = Some j ∧ pid j = p ∧ 1 ≤ p ∧
    deletejob g p
    = (1, {| verbose := verbose g;
             nextjid := maxjid (<[i := clearjob j]> (job_list g)) + 1;
             job_list := <[i := clearjob j]> (job_list g) |}).
Proof.
  intros (Hp & j & Hj & Hpid & Hscan)%getjobpid_Some.
  exists j. repeat split; try done.
  unfold deletejob. destruct (Z.ltb_spec p 1); [lia|].
  by rewrite Hscan, (alter_clearjob _ _ _ Hj).
Qed.

Lemma cleared_slots_set_state (jl : list job_t) (i : nat) (s : Z) :
  (∀ j, jl !! i = Some j → pid j ≠ 0) →
  cleared_slots jl → cleared_slots (alter (set_state s) i jl).
Proof.
  intros Hi Hc k [Hk|(j & Hj & ->)]%elem_of_alter_inv Hp; [by apply Hc|].
  by destruct (Hi j Hj).
Qed.

Lemma reap_child_ok g wpid st :
  table_ok g → table_ok (fst (fst (reap_child g wpid st))).
Proof.
  intros Hok. unfold reap_child.
  destruct (getjobpid (job_list g) wpid) as [i|] eqn:E; [|done].
  destruct st; simpl; try done; try by apply deletejob_ok.
  destruct Hok as (Hlen & Hc & Hn).
  apply getjobpid_Some in E as (Hp & j & Hj & Hpid & _).
  split; [|split]; simpl; [by rewrite length_alter| |done].
  apply cleared_slots_set_state; [|done].
  intros j' Hj'. simplify_eq. lia.
Qed.

Lemma reap_child_trace g wpid st :
  (∀ ev, ev ∈ snd (fst (reap_child g wpid st)) → ∃ text, ev = Stdout text) ∧
  (snd (reap_child g wpid st) = Returned ∨ snd (reap_child g wpid st) = Exited 1).
Proof.
  unfold reap_child.
  destruct (getjobpid (job_list g) wpid) as [i|]; simpl.
  - destruct st; simpl; (split; [|by left]).
    + destruct (verbose g); [|by intros ev ?%elem_of_nil].
      intros ev ->%list_elem_of_singleton. eauto.
    + intros ev ->%list_elem_of_singleton. eauto.
    + intros ev ->%list_elem_of_singleton. eauto.
    + by intros ev ?%elem_of_nil.
  - split; [|by right]. intros ev ->%list_elem_of_singleton. eauto.
Qed.

(** X10: the reaper keeps the table in order and to itself: after
    [sigchld_handler], whatever [waitpid] reported, the table still has
    its [MAXJOBS] slots, its empty slots are cleared and the counter is
    1 or more; the handler sends no signal, it only prints to the
    standard output; and it ends by returning or by [exit(1)]. *)
Theorem sigchld_handler_keeps (g : globals) (ws : list (Z * wstatus))
    (last : Z) (echild : bool) :
  table_ok g →
  table_ok (fst (fst (sigchld_handler g ws last echild))) ∧
  (∀ ev, ev ∈ snd (fst (sigchld_handler g ws last echild)) →
         ∃ text, ev = Stdout text) ∧
  (snd (sigchld_handler g ws last echild) = Returned ∨
   snd (sigchld_handler g ws last echild) = Exited 1).
Proof.
  revert g. induction ws as [|[wpid st] ws IH]; intros g Hok; simpl.
  - destruct ((last =? -1) && negb echild); simpl.
    + split; [done|]. split; [|by right].
      intros ev ->%list_elem_of_singleton. eauto.
    + split; [done|]. split; [|by left]. by intros ev ?%elem_of_nil.
  - destruct (wpid >? 0).
    + pose proof (reap_child_ok g wpid st Hok) as Hok'.
      destruct (reap_child_trace g wpid st) as [Htr Ho].
      destruct (reap_child g wpid st) as [[g' tr] o]. simpl in *.
      destruct Ho as [-> | ->]; [|by auto].
      destruct (IH g' Hok') as (H1 & H2 & H3).
      destruct (sigchld_handler g' ws last echild) as [[g'' tr'] o']. simpl in *.
      split; [done|]. split; [|done].
      intros ev [?|?]%elem_of_app; auto.
    + destruct ((wpid =? -1) && negb echild); simpl.
      * split; [done|]. split; [|by right].
        intros ev ->%list_elem_of_singleton. eauto.
      * split; [done|]. split; [|by left]. by intros ev ?%elem_of_nil.
Qed.

(** What a notification does to the job list: a normal exit and a kill
    clear the slot of the child, a stop sets its state. *)
Lemma reap_child_jobs g wpid st i :
  getjobpid (job_list g) wpid = Some i →
  ∃ j, job_list g !! i = Some j ∧ pid j = wpid ∧ 1 ≤ wpid ∧
    job_list (fst (fst (reap_child g wpid st)))
    = match st with
      | WExited _ | WSignaled _ => <[i := clearjob j]> (job_list g)
      | WStopped _ => <[i := set_state ST j]> (job_list g)
      | WOther => job_list g
      end.
Proof.
  intros E. destruct (deletejob_found g wpid i E) as (j & Hj & Hpid & Hp & Hdel).
  exists j. split; [done|]. split; [done|]. split; [done|].
  unfold reap_child. rewrite E, Hdel.
  destruct st; simpl; try done.
  rewrite list_insert_alter. apply list_alter_ext; [|done].
  intros x Hx. by simplify_eq.
Qed.

(** X11: the foreground is released: in a table with cleared empty slots,
    at most one foreground job and pairwise different live pids, once the
    reaper has handled the exit, the stop or the kill of the foreground
    job, [fgpid] reports no foreground job, which is what the waiting loop
    of [eval] waits for. *)
Theorem reap_releases_foreground (g : globals) (p : Z) (st : wstatus) :
  length (job_list g) = MAXJOBS →
  cleared_slots (job_list g) →
  at_most_one_fg (job_list g) →
  unique_live pid (job_list g) →
  1 ≤ p →
  fgpid (job_list g) = p →
  st ≠ WOther →
  fgpid (job_list (fst (fst (reap_child g p st)))) = 0.
Proof.
  no_os. intros Hlen Hc Hone Huniq Hp Hfg Hst.
  unfold fgpid in Hfg.
  destruct (scan _ (job_list g)) as [[k jk]|] eqn:E; [|lia].
  apply scan_Some in E as (Hk & Hs%Z.eqb_eq & _).
  assert (getjobpid (job_list g) p = Some k) as Hget.
  { destruct (getjobpid (job_list g) p) as [i|] eqn:Hg.
    - apply getjobpid_Some in Hg as (_ & j & Hj & Hpid & _). f_equal.
      apply (Huniq i k j jk Hj Hk); unfold live; lia.
    - by destruct (getjobpid_None_absent (job_list g) p k jk Hlen Hp Hg Hk). }
  destruct (reap_child_jobs g p st k Hget) as (j & Hj & _ & _ & ->).
  assert (j = jk) as -> by congruence.
  assert (∀ new, state new ≠ FG →
            fgpid (<[k := new]> (job_list g)) = 0) as Hnone.
  { intros new Hnew. unfold fgpid. rewrite scan_absent; [done|].
    intros m j' Hj'. apply Z.eqb_neq.
    apply list_lookup_insert_Some in Hj' as [(_ & <- & _)|(Hne & Hj')]; [done|].
    intros Hs'. destruct (decide (pid j' = 0)) as [Hz|Hz].
    - destruct (Hc j') as [_ Hu]; [by eapply list_elem_of_lookup_2|done|].
      rewrite Hu in Hs'. discriminate.
    - apply Hne. apply (Hone k m jk j' Hk Hj'); unfold live; try done. lia. }
  destruct st; try done; by apply Hnone.
Qed.

(** X12: no job is reaped twice: after the reaper has handled the exit or
    the kill of a child whose pid is in a table with pairwise different
    live pids, the pid is no longer found, and a further notification for
    it is an application error that ends the shell with status 1. *)
Theorem reap_twice_exits (g : globals) (p : Z) (st st' : wstatus) (i : nat) :
  length (job_list g) = MAXJOBS →
  unique_live pid (job_list g) →
  getjobpid (job_list g) p = Some i →
  WIFEXITED st = true ∨ WIFSIGNALED st = true →
  let g' := fst (fst (reap_child g p st)) in
  getjobpid (job_list g') p = None ∧
  reap_child g' p st'
  = (g', [Stdout ("sigchld getjobpid error" +:+ NL)], Exited 1).
Proof.
  intros Hlen Huniq Hget Hst g'.
  destruct (deletejob_found g p i Hget) as (j & Hj & Hpid & Hp & Hdel).
  assert (g' = snd (deletejob g p)) as Hg'.
  { unfold g', reap_child. rewrite Hget.
    destruct st, Hst as [?|?]; try discriminate; done. }
  assert (getjobpid (job_list g') p = None) as Hgone.
  { apply (deletejob_gone g p g' Hlen Huniq). by rewrite Hg', Hdel. }
  split; [done|]. unfold reap_child. by rewrite Hgone.
Qed.

(** ** bg and fg *)

(** [%jid] or pid. *)
Lemma job_of_arg_cases jl a :
  job_of_arg jl a = getjobpid jl (atoi a) ∨
  ∃ rest, a = String "%"%char rest ∧ job_of_arg jl a = getjobjid jl (atoi rest).
Proof.
  destruct a as [|c rest]; [by left|].
  destruct (Ascii.eqb_spec c "%"%char) as [->|Hne].
  - right. by exists rest.
  - left. unfold job_of_arg.
    destruct c as [b0 b1 b2 b3 b4 b5 b6 b7].
    destruct b0, b1, b2, b3, b4, b5, b6, b7;
      lazymatch goal with
      | |- ?x = ?x => reflexivity
      | _ => by destruct Hne
      end.
Qed.

Lemma job_of_arg_found jl a i :
  job_of_arg jl a = Some i →
  ∃ job, jl !! i = Some job ∧ (1 ≤ pid job ∨ 1 ≤ jid job).
Proof.
  intros H. destruct (job_of_arg_cases jl a) as [E|(rest & _ & E)];
    rewrite E in H; clear E.
  - apply getjobpid_Some in H as (Hp & job & Hjob & Hpid & _).
    exists job. split; [done|]. left. lia.
  - unfold getjobjid in H. destruct (Z.ltb_spec (atoi rest) 1); [discriminate|].
    destruct (scan _ jl) as [[k job]|] eqn:E; [|discriminate].
    injection H as <-. apply scan_Some in E as (Hjob & Hid%Z.eqb_eq & _).
    exists job. split; [done|]. right. lia.
Qed.

Lemma job_of_arg_live jl a i :
  cleared_slots jl → job_of_arg jl a = Some i →
  ∃ job, jl !! i = Some job ∧ pid job ≠ 0.
Proof.
  intros Hc (job & Hjob & Hpos)%job_of_arg_found.
  exists job. split; [done|]. intros Hz.
  destruct (Hc job) as [Hj _]; [by eapply list_elem_of_lookup_2|done|]. lia.
Qed.

(** A foreground slot in a table with cleared empty slots makes [fgpid]
    report a job. *)
Lemma fgpid_nonzero jl i j :
  length jl = MAXJOBS → cleared_slots jl →
  jl !! i = Some j → state j = FG → fgpid jl ≠ 0.
Proof.
  intros Hlen Hc Hj Hs H0. by apply (fgpid_0_no_fg jl i j Hlen Hc H0 Hj).
Qed.

Lemma alter_set_state (jl : list job_t) (i : nat) (s : Z) (job : job_t) :
  jl !! i = Some job →
  alter (set_state s) i jl = <[i := set_state s job]> jl.
Proof.
  intros Hj. rewrite list_insert_alter. apply list_alter_ext; [|done].
  intros x Hx. by simplify_eq.
Qed.

(** X13: bg with an argument that names a stopped job, by [%jid] or by
    pid, prints the line "[jid] (pid) command" without a newline, sends
    SIGCONT to the process group of the job, sets the state of its slot to
    [BG] and changes nothing else. *)
Theorem eval_bg_resumes (g : globals) (tok : cmdline_tokens) (a : string)
    (i : nat) (job : job_t) :
  argc tok = 2 →
  argv tok !! 1%nat = Some a →
  job_of_arg (job_list g) a = Some i →
  job_list g !! i = Some job →
  state job = ST →
  eval_bg g tok
  = ({| verbose := verbose g; nextjid := nextjid g;
        job_list := <[i := {| pid := pid job; jid := jid job; state := BG;
                              cmdline := cmdline job |}]> (job_list g) |},
     [Stdout ("[" +:+ fmt_d (jid job) +:+ "] (" +:+ fmt_d (pid job) +:+ ") "
              +:+ cmdline job);
      Kill (- pid job) SIGCONT],
     Returned).
Proof.
  intros Hc Ha Hi Hjob Hs. unfold eval_bg.
  rewrite Hc, Ha, Hi, (list_lookup_total_correct _ _ _ Hjob), Hs. simpl.
  unfold with_jobs. by rewrite (alter_set_state _ _ _ _ Hjob).
Qed.

(** X14: fg with an argument that names a stopped job sends SIGCONT to
    the process group of the job, sets the state of its slot to [FG],
    prints nothing, and then waits: in a table with its [MAXJOBS] slots and
    cleared empty slots the loop on [fgpid] is entered with a foreground
    job. *)
Theorem eval_fg_waits (g : globals) (tok : cmdline_tokens) (a : string)
    (i : nat) (job : job_t) :
  length (job_list g) = MAXJOBS →
  cleared_slots (job_list g) →
  argc tok = 2 →
  argv tok !! 1%nat = Some a →
  job_of_arg (job_list g) a = Some i →
  job_list g !! i = Some job →
  state job = ST →
  eval_fg g tok
  = ({| verbose := verbose g; nextjid := nextjid g;
        job_list := <[i := {| pid := pid job; jid := jid job; state := FG;
                              cmdline := cmdline job |}]> (job_list g) |},
     [Kill (- pid job) SIGCONT],
     Spin).
Proof.
  intros Hlen Hcl Hc Ha Hi Hjob Hs. unfold eval_fg.
  rewrite Hc, Ha, Hi, (list_lookup_total_correct _ _ _ Hjob), Hs. simpl.
  unfold with_jobs. simpl. rewrite (alter_set_state _ _ _ _ Hjob).
  destruct (job_of_arg_live _ _ _ Hcl Hi) as (job' & Hjob' & Hlive).
  assert (job' = job) as -> by congruence.
  assert (fgpid (<[i := set_state FG job]> (job_list g)) ≠ 0) as Hfg.
  { apply (fgpid_nonzero _ i (set_state FG job)).
    - by rewrite length_insert.
    - by apply cleared_slots_insert.
    - apply list_lookup_insert_eq. by eapply lookup_lt_Some.
    - done. }
  apply Z.eqb_neq in Hfg. by rewrite Hfg.
Qed.

(** X15: bg and fg refuse what is not a stopped job: with an argument
    count other than 2 they print "wrong input", and for a job that is not
    in state [ST], a running background job included, they print
    "[jid] pid is running now"; either way they return with the globals
    untouched and no signal sent. *)
Theorem bg_fg_refused (g : globals) (tok : cmdline_tokens) :
  (argc tok ≠ 2 →
   eval_bg g tok = (g, [Stderr "wrong input"], Returned) ∧
   eval_fg g tok = (g, [Stderr "wrong input"], Returned)) ∧
  (∀ a i job,
     argc tok = 2 → argv tok !! 1%nat = Some a →
     job_of_arg (job_list g) a = Some i →
     job_list g !! i = Some job → state job ≠ ST →
     let msg := Stderr ("[" +:+ fmt_d (jid job) +:+ "] " +:+ fmt_d (pid job)
                        +:+ " is running now" +:+ NL) in
     eval_bg g tok = (g, [msg], Returned) ∧
     eval_fg g tok = (g, [msg], Returned)).
Proof.
  split.
  - intros H%Z.eqb_neq. unfold eval_bg, eval_fg. by rewrite H.
  - intros a i job Hc Ha Hi Hjob Hs%Z.eqb_neq msg. unfold eval_bg, eval_fg.
    by rewrite Hc, Ha, Hi, (list_lookup_total_correct _ _ _ Hjob), Hs.
Qed.

(** X16: all that bg and fg ever do to the shell: either the globals are
    what they were and no signal is sent, or one slot that held a stopped
    job has the state [BG] (for bg) or [FG] (for fg), every other slot
    and field is what it was, and the one signal sent is SIGCONT to the
    negated pid of that job. *)
Theorem bg_fg_effect (g : globals) (tok : cmdline_tokens) :
  let quiet (r : globals * list event * outcome) :=
    fst (fst r) = g ∧ ∀ target sig, Kill target sig ∉ snd (fst r) in
  let resumed (s : Z) (r : globals * list event * outcome) :=
    ∃ i job, job_list g !! i = Some job ∧ state job = ST ∧
      fst (fst r) = with_jobs g (<[i := set_state s job]> (job_list g)) ∧
      signals_sent (snd (fst r)) = [(- pid job, SIGCONT)] in
  (quiet (eval_bg g tok) ∨ resumed BG (eval_bg g tok)) ∧
  (quiet (eval_fg g tok) ∨ resumed FG (eval_fg g tok)).
Proof.
  intros quiet resumed.
  assert (∀ text, ∀ target sig, Kill target sig ∉ [Stderr text]) as Hone.
  { intros text target sig H%list_elem_of_singleton. discriminate. }
  assert (∀ target sig, Kill target sig ∉ @nil event) as Hnil.
  { intros target sig H. by apply elem_of_nil in H. }
  assert (∀ tr o, (tr = [] ∨ ∃ text, tr = [Stderr text]) →
            quiet (g, tr, o)) as Hquiet.
  { intros tr o [->|[text ->]]; (split; [done|]); simpl; auto. }
  unfold eval_bg, eval_fg.
  destruct (argc tok =? 2); simpl; [|split; left; apply Hquiet; eauto].
  destruct (argv tok !! 1%nat) as [a|]; [|split; left; apply Hquiet; eauto].
  destruct (job_of_arg (job_list g) a) as [i|] eqn:Hi;
    [|split; left; apply Hquiet; eauto].
  destruct (job_of_arg_found _ _ _ Hi) as (job & Hjob & _).
  rewrite (list_lookup_total_correct _ _ _ Hjob).
  destruct (Z.eqb_spec (state job) ST) as [Hs|Hs]; simpl;
    [|split; left; apply Hquiet; eauto].
  rewrite !(alter_set_state _ _ _ _ Hjob).
  split; right; exists i, job; repeat split; try done.
Qed.

(** ** Launching a job *)

(** X17: a background command whose child has a pid that is new to a
    table with an empty slot: the parent stores the job with the state
    [bg + 1], prints "[jid] (pid) command line" with the job id that the
    job was given, which is the counter before the call, and returns
    without waiting. *)
Theorem launch_background (g : globals) (tok : cmdline_tokens)
    (bg child : Z) (cmdline : string) (k : nat) (j : job_t) :
  length (job_list g) = MAXJOBS →
  1 ≤ child →
  bg ≠ 0 →
  getjobpid (job_list g) child = None →
  job_list g !! k = Some j → pid j = 0 →
  ∃ g' i,
    fst (addjob g child (bg + 1) cmdline) = (1, g') ∧
    job_list g' !! i
    = Some {| pid := child; jid := nextjid g; state := bg + 1;
              cmdline := cmdline |} ∧
    launch g tok bg cmdline child
    = (g',
       snd (addjob g child (bg + 1) cmdline)
       ++ [Stdout ("[" +:+ fmt_d (nextjid g) +:+ "] (" +:+ fmt_d child +:+ ") "
                   +:+ cmdline +:+ NL)],
       Returned).
Proof.
  intros Hlen Hp Hbg Hnew Hj Hz.
  destruct (addjob_succeeds g child (bg + 1) cmdline k j Hlen Hp Hj Hz)
    as [g' Hadd].
  destruct (addjob_found g child (bg + 1) cmdline g' Hlen Hnew Hadd)
    as (i & _ & Hslot & Hjid).
  exists g', i. split; [done|]. split; [done|].
  unfold launch.
  destruct (Z.eqb_spec child 0); [lia|]. destruct (Z.eqb_spec child (-1)); [lia|].
  destruct (addjob g child (bg + 1) cmdline) as [[r g''] tr]. simpl in *.
  injection Hadd as -> ->. rewrite Hjid.
  by destruct (Z.eqb_spec bg 0).
Qed.

(** X18: a command started when the table is full is not tracked: the
    parent prints "Tried to create too many jobs", leaves the table as it
    is, prints job id 0 for a background command and does not wait for a
    foreground one unless another job is in the foreground; and when the
    reaper is told of that child later, it finds no entry for it and ends
    the shell with status 1. *)
Theorem launch_table_full (g : globals) (tok : cmdline_tokens)
    (bg child : Z) (cmdline : string) :
  1 ≤ child →
  (∀ m j, job_list g !! m = Some j → pid j ≠ 0) →
  getjobpid (job_list g) child = None →
  launch g tok bg cmdline child
  = (g,
     Stdout ("Tried to create too many jobs" +:+ NL)
     :: (if bg =? 0 then []
         else [Stdout ("[" +:+ fmt_d 0 +:+ "] (" +:+ fmt_d child +:+ ") "
                       +:+ cmdline +:+ NL)]),
     if bg =? 0 then (if fgpid (job_list g) =? 0 then Returned else Spin)
     else Returned) ∧
  ∀ st, reap_child g child st
        = (g, [Stdout ("sigchld getjobpid error" +:+ NL)], Exited 1).
Proof.
  intros Hp Hfull Hnew. split.
  - unfold launch.
    destruct (Z.eqb_spec child 0); [lia|]. destruct (Z.eqb_spec child (-1)); [lia|].
    rewrite (addjob_full g child (bg + 1) cmdline Hp Hfull).
    rewrite pid2jid_getjobpid, Hnew. by destruct (bg =? 0).
  - intros st. unfold reap_child. by rewrite Hnew.
Qed.

(** X19: a foreground command is waited for: with an empty slot in a
    table with cleared empty slots the parent stores the job with state
    [FG], prints nothing but what addjob prints, and enters the loop on
    [fgpid] with a foreground job in the table. *)
Theorem launch_foreground_waits (g : globals) (tok : cmdline_tokens)
    (child : Z) (cmdline : string) (k : nat) (j : job_t) :
  length (job_list g) = MAXJOBS →
  cleared_slots (job_list g) →
  1 ≤ child →
  job_list g !! k = Some j → pid j = 0 →
  ∃ g',
    fst (addjob g child FG cmdline) = (1, g') ∧
    launch g tok 0 cmdline child = (g', snd (addjob g child FG cmdline), Spin).
Proof.
  intros Hlen Hc Hp Hj Hz.
  destruct (addjob_succeeds g child FG cmdline k j Hlen Hp Hj Hz) as [g' Hadd].
  exists g'. split; [done|].
  assert (fgpid (job_list g') ≠ 0) as Hfg.
  { pose proof Hadd as (_ & i & j' & Hj' & _ & _ & ->)%addjob_success. simpl.
    apply (fgpid_nonzero _ i {| pid := child; jid := nextjid g; state := FG;
                               cmdline := cmdline |}).
    - by rewrite length_insert.
    - apply cleared_slots_insert; [simpl; lia|done].
    - apply list_lookup_insert_eq. by eapply lookup_lt_Some.
    - done. }
  unfold launch.
  destruct (Z.eqb_spec child 0); [lia|]. destruct (Z.eqb_spec child (-1)); [lia|].
  change (0 + 1) with FG.
  destruct (addjob g child FG cmdline) as [[r g''] tr]. simpl in *.
  injection Hadd as -> ->. apply Z.eqb_neq in Hfg. by rewrite Hfg.
Qed.

(** ** The jobs builtin *)

Lemma listjobs_ok jl fd :
  length jl = MAXJOBS →
  (∀ tr fd buf, 0 ≤ write tr fd buf) →
  listjobs jl fd
  = (writes_from fd 0 jl ++ (if fd =? STDOUT_FILENO then [] else [FdClose fd]),
     Returned).
Proof.
  intros Hlen Hw. unfold listjobs.
  rewrite (listjobs_from_writes jl fd 0 MAXJOBS [] Hw).
  rewrite drop_0, take_ge by lia. simpl.
  destruct (fd =? STDOUT_FILENO); simpl; [|done]. by rewrite app_nil_r.
Qed.

Lemma listjobs_from_outcome jl fd i n tr :
  snd (listjobs_from jl fd i n tr) = Returned ∨
  (snd (listjobs_from jl fd i n tr) = Exited 1 ∧
   ∃ tr' buf, write tr' fd buf < 0).
Proof.
  revert i tr. induction n as [|n IH]; intros i tr; simpl; [by left|].
  destruct (jl !! i) as [j|]; [|by left].
  destruct (negb (pid j =? 0)); [|apply IH].
  unfold write_or_exit.
  repeat (match goal with
          | |- context [write ?t fd ?b <? 0] =>
              destruct (Z.ltb_spec (write t fd b) 0);
              [right; split; [done|by exists t, b]|]
          end).
  apply IH.
Qed.

(** X20: jobs: without a redirection the listing goes to the standard
    output, which stays open; with an output file that cannot be opened
    the error is printed and nothing is listed; with one that can, the
    listing goes to the new descriptor, which is closed at the end.  In
    each case the globals are untouched and the builtin returns.  The
    table has [MAXJOBS] slots and the writes succeed. *)
Theorem eval_jobs_spec (g : globals) (tok : cmdline_tokens) :
  length (job_list g) = MAXJOBS →
  (∀ tr fd buf, 0 ≤ write tr fd buf) →
  (outfile tok = None →
   ∃ tr, eval_jobs g tok = (g, tr, Returned) ∧
         written STDOUT_FILENO tr = listing (job_list g) ∧
         ∀ fd, FdClose fd ∉ tr) ∧
  (∀ f, outfile tok = Some f → open f = -1 →
        eval_jobs g tok = (g, [perror "jobs output error"], Returned)) ∧
  (∀ f, outfile tok = Some f → open f ≠ -1 →
        ∃ tr, eval_jobs g tok = (g, tr, Returned) ∧
              written (open f) tr = listing (job_list g) ∧
              (open f ≠ STDOUT_FILENO → List.last tr (Stdout "") = FdClose (open f))).
Proof.
  intros Hlen Hw. unfold eval_jobs. split; [|split].
  - intros ->. rewrite (listjobs_ok _ _ Hlen Hw). simpl.
    eexists. split; [done|]. rewrite app_nil_r.
    split; [apply written_writes_from|].
    intros fd [text H]%writes_from_fd. discriminate.
  - intros f -> Ho. by rewrite Ho.
  - intros f -> Ho%Z.eqb_neq. rewrite Ho, (listjobs_ok _ _ Hlen Hw).
    eexists. split; [done|]. split.
    + rewrite written_app, written_writes_from.
      destruct (open f =? STDOUT_FILENO); simpl; apply append_nil_r.
    + intros Hfd%Z.eqb_neq. rewrite Hfd. apply last_last.
Qed.

(** ** parseline *)

Lemma skip_delims_length buf :
  (String.length (skip_delims buf) ≤ String.length buf)%nat.
Proof. induction buf as [|c rest IH]; simpl; [done|]. destruct (is_delim c); simpl; lia. Qed.

Lemma skip_delims_head buf c rest :
  skip_delims buf = String c rest → is_delim c = false.
Proof.
  induction buf as [|d r IH]; simpl; [discriminate|].
  destruct (is_delim d) eqn:E; [done|]. by intros [= <- <-].
Qed.

Lemma span_token_length buf token next :
  span_token buf = (token, next) →
  String.length buf = (String.length token + String.length next)%nat.
Proof.
  revert token next. induction buf as [|c rest IH]; intros token next; simpl.
  { by intros [= <- <-]. }
  destruct (is_delim c); [by intros [= <- <-]|].
  destruct (span_token rest) as [t n]. intros [= <- <-]. simpl.
  by rewrite (IH t n).
Qed.

Lemma find_char_length q buf token next :
  find_char q buf = Some (token, next) →
  String.length buf = (String.length token + String.length next)%nat.
Proof.
  revert token next. induction buf as [|c rest IH]; intros token next; simpl.
  { discriminate. }
  destruct (c =? q)%char; [by intros [= <- <-]|].
  destruct (find_char q rest) as [[t n]|]; [|discriminate].
  intros [= <- <-]. simpl. by rewrite (IH t n).
Qed.

Lemma advance_length next :
  (String.length (advance next) ≤ String.length next)%nat.
Proof. destruct next; simpl; lia. Qed.

Lemma next_token_length c rest token next :
  is_delim c = false →
  next_token c rest = Some (token, next) →
  (String.length next ≤ String.length rest)%nat.
Proof.
  intros Hc. unfold next_token. destruct (is_quote c).
  - intros F%find_char_length. lia.
  - simpl. rewrite Hc. destruct (span_token rest) as [t n] eqn:F.
    intros [= <- <-]. apply span_token_length in F. lia.
Qed.

(** One turn of the loop. *)
Lemma parse_loop_S fuel st buf :
  parse_loop (S fuel) st buf
  = match skip_delims buf with
    | EmptyString => Some ([], Some st)
    | String c rest =>
        if (c =? "<")%char then
          match p_infile st with
          | Some _ => Some ambiguous
          | None => parse_loop fuel (expect st ST_INFILE) rest
          end
        else if (c =? ">")%char then
          match p_outfile st with
          | Some _ => Some ambiguous
          | None => parse_loop fuel (expect st ST_OUTFILE) rest
          end
        else
          match next_token c rest with
          | None =>
              Some ([Stderr ("Error: unmatched " +:+ String c "." +:+ NL)], None)
          | Some (token, next) =>
              match record_token st token with
              | None => Some ambiguous
              | Some st' =>
                  if (MAXARGS - 1 <=? length (p_argv st'))%nat
                  then Some ([], Some st')
                  else parse_loop fuel st' (advance next)
              end
          end
    end.
Proof. reflexivity. Qed.

(** The loop ends: fuel above the length of the buffer is never used up. *)
Lemma parse_loop_fuel fuel st buf :
  (String.length buf < fuel)%nat → is_Some (parse_loop fuel st buf).
Proof.
  revert st buf. induction fuel as [|fuel IH]; intros st buf Hlen; [lia|].
  rewrite parse_loop_S. pose proof (skip_delims_length buf) as Hskip.
  destruct (skip_delims buf) as [|c rest] eqn:E; [done|]. simpl in Hskip.
  destruct (c =? "<")%char.
  { destruct (p_infile st); [done|]. apply IH. lia. }
  destruct (c =? ">")%char.
  { destruct (p_outfile st); [done|]. apply IH. lia. }
  destruct (next_token c rest) as [[token next]|] eqn:F; [|done].
  destruct (record_token st token) as [st'|]; [|done].
  destruct (Nat.leb (MAXARGS - 1) (length (p_argv st'))); [done|]. apply IH.
  pose proof (next_token_length c rest token next (skip_delims_head _ _ _ E) F).
  pose proof (advance_length next). lia.
Qed.

Lemma record_token_argv st token st' :
  record_token st token = Some st' →
  p_state st' = ST_NORMAL ∧
  (length (p_argv st') ≤ S (length (p_argv st)))%nat.
Proof.
  unfold record_token.
  destruct (p_state st =? ST_NORMAL);
    [|destruct (p_state st =? ST_INFILE);
      [|destruct (p_state st =? ST_OUTFILE); [|discriminate]]];
    intros [= <-]; simpl; rewrite ?length_app; simpl; split; (done || lia).
Qed.

(** What the loop hands back: the collected tokens and no message, or no
    tokens and one of two messages. *)
Lemma parse_loop_shape fuel st buf tr r :
  (length (p_argv st) < MAXARGS - 1)%nat →
  parse_loop fuel st buf = Some (tr, r) →
  match r with
  | Some st' => tr = [] ∧ (length (p_argv st') ≤ MAXARGS - 1)%nat
  | None =>
      tr = [Stderr ("Error: Ambiguous I/O redirection" +:+ NL)] ∨
      ∃ c, is_quote c = true ∧
           tr = [Stderr ("Error: unmatched " +:+ String c "." +:+ NL)]
  end.
Proof.
  revert st buf. induction fuel as [|fuel IH]; intros st buf Hargs; [discriminate|].
  rewrite parse_loop_S.
  destruct (skip_delims buf) as [|c rest]; [intros [= <- <-]; split; [done|unfold MAXARGS in *; lia]|].
  destruct (c =? "<")%char.
  { destruct (p_infile st); [intros [= <- <-]; by left|]. by apply IH. }
  destruct (c =? ">")%char.
  { destruct (p_outfile st); [intros [= <- <-]; by left|]. by apply IH. }
  unfold next_token. destruct (is_quote c) eqn:Hq.
  - destruct (find_char c rest) as [[token next]|];
      [|intros [= <- <-]; right; by exists c].
    destruct (record_token st token) as [st'|] eqn:R; [|intros [= <- <-]; by left].
    apply record_token_argv in R as [_ Hl].
    destruct (Nat.leb_spec (MAXARGS - 1) (length (p_argv st')));
      [intros [= <- <-]; split; [done|unfold MAXARGS in *; lia]|by apply IH].
  - destruct (span_token (String c rest)) as [token next].
    destruct (record_token st token) as [st'|] eqn:R; [|intros [= <- <-]; by left].
    apply record_token_argv in R as [_ Hl].
    destruct (Nat.leb_spec (MAXARGS - 1) (length (p_argv st')));
      [intros [= <- <-]; split; [done|unfold MAXARGS in *; lia]|by apply IH].
Qed.

Lemma removelast_length (l : list string) :
  l ≠ [] → Z.of_nat (length (removelast l)) = Z.of_nat (length l) - 1.
Proof.
  intros Hl. rewrite (app_removelast_last "" Hl) at 2.
  rewrite length_app. simpl. lia.
Qed.

(** X21: what parseline hands back.  When it fails it has printed exactly
    one of three messages: ambiguous redirection, unmatched quote, or
    missing file name.  When it succeeds it has printed nothing, the
    return value is 0 or 1, [argc] is the number of arguments, which is at
    most [MAXARGS - 1] so that the terminating NULL fits the array, and a
    foreground result has at least one argument. *)
Theorem parseline_outcome (cmdline : string) :
  match parseline cmdline with
  | (tr, Some (bg, tok)) =>
      tr = [] ∧ (bg = 0 ∨ bg = 1) ∧
      argc tok = Z.of_nat (length (argv tok)) ∧
      (length (argv tok) ≤ MAXARGS - 1)%nat ∧
      (bg = 0 → argv tok ≠ [])
  | (tr, None) =>
      tr = [Stderr ("Error: Ambiguous I/O redirection" +:+ NL)] ∨
      tr = [Stderr ("Error: must provide file name for redirection" +:+ NL)] ∨
      ∃ c, is_quote c = true ∧
           tr = [Stderr ("Error: unmatched " +:+ String c "." +:+ NL)]
  end.
Proof.
  no_os. unfold parseline.
  destruct (parse_loop_fuel (S (String.length (c_string cmdline)))
              {| p_argv := []; p_infile := None; p_outfile := None;
                 p_state := ST_NORMAL |} (c_string cmdline)) as [[tr r] E]; [lia|].
  rewrite E. apply parse_loop_shape in E; [|simpl; unfold MAXARGS; lia].
  destruct r as [st|]; [|tauto].
  destruct E as [-> Hargs].
  destruct (p_state st =? ST_NORMAL); simpl; [|tauto].
  destruct (p_argv st) as [|arg0 l] eqn:Hl; [simpl; split; [done|]; auto 6|].
  rewrite <- Hl in *. assert (p_argv st ≠ []) as Hne by (rewrite Hl; done).
  destruct (starts_with_amp _); simpl.
  - split; [done|]. split; [by right|]. split; [by rewrite removelast_length|].
    split; [|done].
    pose proof (removelast_length _ Hne). unfold MAXARGS in *. lia.
  - split; [done|]. split; [by left|]. split; [done|]. split; [done|]. done.
Qed.

Lemma classify_spec a :
  (classify a = BUILTIN_QUIT ↔ a = "quit") ∧
  (classify a = BUILTIN_JOBS ↔ a = "jobs") ∧
  (classify a = BUILTIN_BG ↔ a = "bg") ∧
  (classify a = BUILTIN_FG ↔ a = "fg").
Proof.
  unfold classify.
  destruct (String.eqb_spec a "quit") as [->|H1]; [by repeat split|].
  destruct (String.eqb_spec a "jobs") as [->|H2]; [by repeat split|].
  destruct (String.eqb_spec a "bg") as [->|H3]; [by repeat split|].
  destruct (String.eqb_spec a "fg") as [->|H4]; [by repeat split|].
  by repeat split.
Qed.

(** X22: the builtin is read off the first argument alone: in a result
    with at least one argument, [builtins] is [BUILTIN_QUIT], [BUILTIN_JOBS],
    [BUILTIN_BG] or [BUILTIN_FG] exactly when the first argument is the
    word "quit", "jobs", "bg" or "fg", also when a trailing "&" has been
    taken off, and [BUILTIN_NONE] for every other first argument. *)
Theorem parseline_builtins (cmdline : string) (tr : list event) (bg : Z)
    (tok : cmdline_tokens) (a : string) (rest : list string) :
  parseline cmdline = (tr, Some (bg, tok)) →
  argv tok = a :: rest →
  (builtins tok = BUILTIN_QUIT ↔ a = "quit") ∧
  (builtins tok = BUILTIN_JOBS ↔ a = "jobs") ∧
  (builtins tok = BUILTIN_BG ↔ a = "bg") ∧
  (builtins tok = BUILTIN_FG ↔ a = "fg") ∧
  (builtins tok = BUILTIN_NONE ↔
   a ≠ "quit" ∧ a ≠ "jobs" ∧ a ≠ "bg" ∧ a ≠ "fg").
Proof.
  no_os. unfold parseline.
  destruct (parse_loop _ _ _) as [[tr' [st|]]|]; try discriminate.
  destruct (negb _); [discriminate|].
  destruct (p_argv st) as [|arg0 l] eqn:Hl; [intros [= <- <- <-]; discriminate|].
  assert (builtins tok = classify arg0 → a = arg0 →
          (builtins tok = BUILTIN_QUIT ↔ a = "quit") ∧
          (builtins tok = BUILTIN_JOBS ↔ a = "jobs") ∧
          (builtins tok = BUILTIN_BG ↔ a = "bg") ∧
          (builtins tok = BUILTIN_FG ↔ a = "fg") ∧
          (builtins tok = BUILTIN_NONE ↔
           a ≠ "quit" ∧ a ≠ "jobs" ∧ a ≠ "bg" ∧ a ≠ "fg")) as Hcl.
  { intros -> ->. destruct (classify_spec arg0) as (Q & J & B & F).
    split; [done|]. split; [done|]. split; [done|]. split; [done|].
    unfold classify in *.
    destruct (String.eqb_spec arg0 "quit"); [split; [discriminate|tauto]|].
    destruct (String.eqb_spec arg0 "jobs"); [split; [discriminate|tauto]|].
    destruct (String.eqb_spec arg0 "bg"); [split; [discriminate|tauto]|].
    destruct (String.eqb_spec arg0 "fg"); [split; [discriminate|tauto]|].
    done. }
  destruct (starts_with_amp _); intros [= <- <- <-]; simpl; intros Ha;
    apply Hcl; simpl; try done.
  - destruct l; [discriminate|]. by injection Ha.
  - by injection Ha.
Qed.

Lemma skip_delims_blank s : blank s = true → skip_delims s = "".
Proof.
  induction s as [|c rest IH]; simpl; [done|].
  destruct (is_delim c); [apply IH|discriminate].
Qed.

Lemma parseline_blank cmdline :
  blank (c_string cmdline) = true →
  parseline cmdline
  = ([], Some (1, {| argc := 0; argv := []; infile := None; outfile := None;
                     builtins := BUILTIN_NONE |})).
Proof.
  intros Hb. unfold parseline. rewrite parse_loop_S.
  by rewrite (skip_delims_blank _ Hb).
Qed.

Lemma parseline_failure cmdline :
  snd (parseline cmdline) = None →
  ∃ msg, fst (parseline cmdline) = [Stderr msg].
Proof.
  unfold parseline.
  destruct (parse_loop_fuel (S (String.length (c_string cmdline)))
              {| p_argv := []; p_infile := None; p_outfile := None;
                 p_state := ST_NORMAL |} (c_string cmdline)) as [[tr r] E]; [lia|].
  rewrite E. apply parse_loop_shape in E; [|simpl; unfold MAXARGS; lia].
  destruct r as [st|].
  - destruct E as [-> _]. destruct (negb _); simpl; [eauto|].
    destruct (p_argv st); [discriminate|].
    destruct (starts_with_amp _); discriminate.
  - intros _. simpl. destruct E as [->|(c & _ & ->)]; eauto.
Qed.

(** X23: lines that start nothing: for a line of delimiters only, the
    empty line included, parseline returns 1 with no argument and eval
    returns at once, with the globals untouched and nothing printed; for a
    line that parseline rejects eval prints the one message of parseline
    and likewise returns with the globals untouched. *)
Theorem eval_ignores (g : globals) (cmdline : string) (self fork_ret : Z) :
  (blank (c_string cmdline) = true →
   parseline cmdline
   = ([], Some (1, {| argc := 0; argv := []; infile := None; outfile := None;
                      builtins := BUILTIN_NONE |})) ∧
   eval g cmdline self fork_ret = (g, [], Returned)) ∧
  (snd (parseline cmdline) = None →
   ∃ msg, eval g cmdline self fork_ret = (g, [Stderr msg], Returned)).
Proof.
  split.
  - intros Hb. split; [by apply parseline_blank|].
    unfold eval. by rewrite (parseline_blank _ Hb).
  - intros Hn. destruct (parseline_failure _ Hn) as [msg Hmsg].
    exists msg. unfold eval.
    destruct (parseline cmdline) as [ptr parsed]. simpl in *. by subst.
Qed.

Lemma eval_bg_outcome g tok s : snd (eval_bg g tok) ≠ Exited s.
Proof.
  unfold eval_bg. destruct (negb _); [done|].
  destruct (argv tok !! 1%nat); [|done].
  destruct (job_of_arg _ _); [|done]. by destruct (negb _).
Qed.

Lemma eval_fg_outcome g tok s : snd (eval_fg g tok) ≠ Exited s.
Proof.
  unfold eval_fg. destruct (negb _); [done|].
  destruct (argv tok !! 1%nat); [|done].
  destruct (job_of_arg _ _); [|done]. destruct (negb _); [done|].
  simpl. by destruct (_ =? 0).
Qed.

Lemma listjobs_outcome jl fd s :
  snd (listjobs jl fd) = Exited s →
  s = 1 ∧ ∃ tr buf, write tr fd buf < 0.
Proof.
  unfold listjobs.
  destruct (listjobs_from_outcome jl fd 0 MAXJOBS []) as [H|[H Hw]];
    destruct (listjobs_from jl fd 0 MAXJOBS []) as [tr o]; simpl in H; subst o.
  - discriminate.
  - by intros [= <-].
Qed.

(** A line that parseline accepts has printed nothing, and its builtin is
    read off the first argument. *)
Lemma parseline_quiet cmdline r :
  snd (parseline cmdline) = Some r → fst (parseline cmdline) = [].
Proof.
  unfold parseline.
  destruct (parse_loop_fuel (S (String.length (c_string cmdline)))
              {| p_argv := []; p_infile := None; p_outfile := None;
                 p_state := ST_NORMAL |} (c_string cmdline)) as [[tr st] E]; [lia|].
  rewrite E. apply parse_loop_shape in E; [|simpl; unfold MAXARGS; lia].
  destruct st as [st|]; [|discriminate].
  destruct E as [-> _]. destruct (negb _); simpl; [discriminate|].
  destruct (p_argv st); [done|]. by destruct (starts_with_amp _).
Qed.

Lemma parseline_first_arg cmdline bg tok a rest :
  snd (parseline cmdline) = Some (bg, tok) →
  argv tok = a :: rest → builtins tok = classify a.
Proof.
  no_os. unfold parseline.
  destruct (parse_loop _ _ _) as [[tr' [st|]]|]; try discriminate.
  destruct (negb _); [discriminate|].
  destruct (p_argv st) as [|arg0 l] eqn:Hl; [intros [= <- <-]; discriminate|].
  destruct (starts_with_amp _); intros [= <- <-]; simpl; intros Ha.
  - destruct l; [discriminate|]. by injection Ha as <- _.
  - by injection Ha as <- _.
Qed.

(** X24: what ends the shell in eval, in the parent.  Whenever eval ends
    in a call of [exit] the status is 1, and [fork] has failed, or a
    write of the job listing has failed, or the first argument of the line
    is "quit".  And a line whose first argument is "quit" always ends the
    shell: eval prints its message in verbose mode and sends SIGQUIT to
    the shell itself, whose [sigquit_handler] prints "Terminating after
    receipt of SIGQUIT signal" and calls [exit(1)]; the globals are
    untouched. *)
Theorem eval_exit_causes (g : globals) (cmdline : string) (self fork_ret : Z) :
  fork_ret ≠ 0 →
  (∀ s, snd (eval g cmdline self fork_ret) = Exited s →
     s = 1 ∧
     (fork_ret = -1 ∨ (∃ tr fd buf, write tr fd buf < 0) ∨
      ∃ bg tok rest, snd (parseline cmdline) = Some (bg, tok) ∧
                     argv tok = "quit" :: rest)) ∧
  (∀ bg tok rest,
     snd (parseline cmdline) = Some (bg, tok) → argv tok = "quit" :: rest →
     eval g cmdline self fork_ret
     = (g,
        (if verbose g then [Stdout ("clear all the jobs and quit" +:+ NL)] else [])
        ++ [Kill self SIGQUIT;
            Stdout ("Terminating after receipt of SIGQUIT signal" +:+ NL)],
        Exited 1)).
Proof.
  intros Hfork. split.
  - intros s. unfold eval.
    pose proof (parseline_first_arg cmdline) as Hfirst.
    destruct (parseline cmdline) as [ptr [[bg tok]|]]; [|discriminate].
    specialize (Hfirst bg tok). simpl in Hfirst.
    destruct (argv tok) as [|a rest] eqn:Ha; [discriminate|].
    specialize (Hfirst a rest eq_refl eq_refl).
    destruct (builtins tok).
    + unfold launch. destruct (Z.eqb_spec fork_ret 0); [done|].
      destruct (Z.eqb_spec fork_ret (-1)) as [->|].
      * simpl. intros [= <-]. auto.
      * destruct (addjob _ _ _ _) as [[r g'] tr].
        destruct (bg =? 0); simpl; [|discriminate]. by destruct (_ =? 0).
    + simpl. intros [= <-]. split; [done|]. right. right.
      exists bg, tok, rest. split; [done|]. rewrite Ha. f_equal.
      symmetry in Hfirst. by apply classify_spec in Hfirst.
    + unfold eval_jobs. destruct (outfile tok) as [f|].
      * destruct (open f =? -1); [discriminate|].
        pose proof (listjobs_outcome (job_list g) (open f) s) as H.
        destruct (listjobs _ _) as [tr o]. simpl in *.
        intros Ho. destruct (H Ho) as (-> & tr' & buf & Hw). eauto 8.
      * pose proof (listjobs_outcome (job_list g) STDOUT_FILENO s) as H.
        destruct (listjobs _ _) as [tr o]. simpl in *.
        intros Ho. destruct (H Ho) as (-> & tr' & buf & Hw). eauto 8.
    + pose proof (eval_bg_outcome g tok s) as H.
      destruct (eval_bg g tok) as [[g' tr] o]. simpl in *. intros Ho. by destruct H.
    + pose proof (eval_fg_outcome g tok s) as H.
      destruct (eval_fg g tok) as [[g' tr] o]. simpl in *. intros Ho. by destruct H.
  - intros bg tok rest Hp Ha.
    pose proof (parseline_quiet cmdline _ Hp) as Hq.
    pose proof (parseline_first_arg cmdline bg tok "quit" rest Hp Ha) as Hb.
    unfold eval. destruct (parseline cmdline) as [ptr parsed].
    simpl in Hp, Hq. subst ptr parsed. rewrite Ha, Hb. reflexivity.
Qed.

(** ** Plain lines are split into their words *)

Lemma split_words_skip s : split_words (skip_delims s) = split_words s.
Proof.
  induction s as [|c rest IH]; [done|].
  simpl skip_delims. destruct (is_delim c) eqn:E; [|done].
  rewrite IH. simpl. by rewrite E.
Qed.

Lemma plain_skip s : plain s = true → plain (skip_delims s) = true.
Proof.
  induction s as [|c rest IH]; [done|].
  simpl skip_delims. destruct (is_delim c); [|done].
  simpl. intros H. apply IH. by destruct (plain rest), (negb _ && negb _ && negb _).
Qed.

Lemma plain_cons c rest :
  plain (String c rest) = true →
  (c =? "<")%char = false ∧ (c =? ">")%char = false ∧ is_quote c = false ∧
  plain rest = true.
Proof.
  simpl. destruct (c =? "<")%char, (c =? ">")%char, (is_quote c), (plain rest);
    simpl; auto; discriminate.
Qed.

Lemma split_words_delim d rest :
  is_delim d = true → split_words (String d rest) = split_words rest.
Proof. intros H. simpl. by rewrite H. Qed.

(** The token that [strcspn] cuts off is the first word, and what follows
    the delimiter after it holds the other words. *)
Lemma span_words c rest token next :
  is_delim c = false →
  span_token (String c rest) = (token, next) →
  split_words (String c rest) = token :: split_words (advance next) ∧
  (plain (String c rest) = true → plain (advance next) = true) ∧
  (String.length (advance next) ≤ String.length rest)%nat.
Proof.
  revert c token next. induction rest as [|d r IH]; intros c token next Hc.
  - simpl. rewrite Hc. intros [= <- <-]. simpl. split; [done|]. split; [done|lia].
  - change (span_token (String c (String d r)))
      with (if is_delim c then ("", String c (String d r))
            else let '(t, n) := span_token (String d r) in (String c t, n)).
    rewrite Hc. destruct (is_delim d) eqn:Hd.
    + simpl span_token. rewrite Hd. intros [= <- <-]. simpl advance.
      split; [|split].
      * simpl. by rewrite Hc, Hd.
      * intros H. apply plain_cons in H as (_ & _ & _ & H).
        by apply plain_cons in H as (_ & _ & _ & H).
      * simpl. lia.
    + destruct (span_token (String d r)) as [t n] eqn:E.
      intros [= <- <-].
      destruct (IH d t n Hd E) as (Hw & Hp & Hl).
      split; [|split].
      * change (split_words (String c (String d r)))
          with (if is_delim c then split_words (String d r)
                else if is_delim d then String c "" :: split_words (String d r)
                     else match split_words (String d r) with
                          | w :: ws => String c w :: ws
                          | [] => [String c ""]
                          end).
        by rewrite Hc, Hd, Hw.
      * intros H. apply plain_cons in H as (_ & _ & _ & H). by apply Hp.
      * simpl. lia.
Qed.

Lemma parse_loop_plain fuel st buf :
  (String.length buf < fuel)%nat →
  plain buf = true →
  p_state st = ST_NORMAL →
  (length (p_argv st) < MAXARGS - 1)%nat →
  parse_loop fuel st buf
  = Some ([], Some {| p_argv := take (MAXARGS - 1) (p_argv st ++ split_words buf);
                      p_infile := p_infile st; p_outfile := p_outfile st;
                      p_state := ST_NORMAL |}).
Proof.
  revert st buf. induction fuel as [|fuel IH]; intros st buf Hlen Hp Hst Hargs; [lia|].
  rewrite parse_loop_S. rewrite <- (split_words_skip buf).
  pose proof (skip_delims_length buf) as Hskip.
  pose proof (plain_skip _ Hp) as Hp1.
  destruct (skip_delims buf) as [|c rest] eqn:E.
  - rewrite app_nil_r, take_ge by lia.
    destruct st; simpl in *; by subst.
  - pose proof (skip_delims_head _ _ _ E) as Hc.
    apply plain_cons in Hp1 as (Hlt & Hgt & Hq & Hpr).
    rewrite Hlt, Hgt. unfold next_token. rewrite Hq.
    destruct (span_token (String c rest)) as [token next] eqn:F.
    destruct (span_words c rest token next Hc F) as (Hw & Hpn & Hl).
    rewrite Hw. unfold record_token. rewrite Hst.
    change (ST_NORMAL =? ST_NORMAL) with true. cbv iota.
    cbn [p_argv].
    destruct (Nat.leb_spec (MAXARGS - 1) (length (p_argv st ++ [token])))
      as [Hfull|Hmore]; rewrite length_app in *; cbn [length] in *.
    + do 3 f_equal. f_equal.
      assert (p_argv st ++ token :: split_words (advance next)
              = (p_argv st ++ [token]) ++ split_words (advance next)) as ->
        by by rewrite <- app_assoc.
      symmetry. apply take_app_length'. rewrite length_app. cbn [length].
      unfold MAXARGS in *. lia.
    + rewrite IH.
      * cbn [p_argv p_infile p_outfile]. by rewrite <- app_assoc.
      * cbn [String.length] in Hskip. lia.
      * apply Hpn. rewrite <- E. by apply plain_skip.
      * done.
      * cbn [p_argv]. rewrite length_app. cbn [length]. lia.
Qed.

(** X25: a line without quotes and without redirection characters is
    split at its delimiters.  With [ws] the first [MAXARGS - 1] words of
    the line, parseline prints nothing and records no redirection; the
    arguments are [ws] and the return value is 0, unless the last word of
    [ws] starts with "&": then that word is dropped and the return value
    is 1, as it is when the line has no word at all. *)
Theorem parseline_plain (cmdline : string) :
  plain (c_string cmdline) = true →
  let ws := take (MAXARGS - 1) (split_words (c_string cmdline)) in
  ∃ bg tok,
    parseline cmdline = ([], Some (bg, tok)) ∧
    infile tok = None ∧ outfile tok = None ∧
    ((bg = 0 ∧ argv tok = ws ∧ ws ≠ [] ∧
      starts_with_amp (List.last ws "") = false) ∨
     (bg = 1 ∧ ∃ w, ws = argv tok ++ [w] ∧ starts_with_amp w = true) ∨
     (bg = 1 ∧ ws = [] ∧ argv tok = [])).
Proof.
  intros Hp ws. unfold parseline.
  rewrite parse_loop_plain; [|lia|done|done|simpl; unfold MAXARGS; lia].
  cbn [p_state p_argv p_infile p_outfile app]. fold ws.
  change (negb (ST_NORMAL =? ST_NORMAL)) with false. cbv iota.
  clearbody ws. destruct ws as [|arg0 l].
  { eexists _, _. split; [done|]. cbn [infile outfile argv].
    split; [done|]. split; [done|]. right. right. done. }
  assert (arg0 :: l ≠ []) as Hne by done.
  destruct (starts_with_amp (List.last (arg0 :: l) "")) eqn:Hamp.
  - eexists _, _. split; [done|]. cbn [infile outfile argv].
    split; [done|]. split; [done|].
    right. left. split; [done|]. exists (List.last (arg0 :: l) "").
    split; [by apply app_removelast_last|done].
  - eexists _, _. split; [done|]. cbn [infile outfile argv].
    split; [done|]. split; [done|]. by left.
Qed.

(** ** A quoted argument *)

Lemma c_string_id s : has_char (ascii_of_nat 0) s = false → c_string s = s.
Proof.
  induction s as [|c rest IH]; simpl; [done|].
  destruct (c =? ascii_of_nat 0)%char; [discriminate|].
  intros H. by rewrite IH.
Qed.

Lemma has_char_app q a b :
  has_char q (a +:+ b) = has_char q a || has_char q b.
Proof.
  induction a as [|c rest IH]; [done|].
  change (String c rest +:+ b) with (String c (rest +:+ b)).
  simpl. by rewrite IH, orb_assoc.
Qed.

Lemma find_char_closing q body rest :
  has_char q body = false →
  find_char q (body +:+ String q rest) = Some (body, String q rest).
Proof.
  induction body as [|c b IH].
  - intros _. change (find_char q (String q rest) = Some ("", String q rest)).
    simpl. by rewrite Ascii.eqb_refl.
  - change (String c b +:+ String q rest) with (String c (b +:+ String q rest)).
    simpl. destruct (c =? q)%char; [discriminate|].
    intros H. by rewrite IH.
Qed.

Lemma is_quote_cases q :
  is_quote q = true → q = "'"%char ∨ q = ascii_of_nat 34.
Proof.
  unfold is_quote. intros [H|H]%orb_true_iff; apply Ascii.eqb_eq in H; auto.
Qed.

(** X26: what a pair of quotes encloses is one argument, taken as it is,
    blanks and redirection characters included: for a line that consists
    of a quote, a text without that quote and without NUL, and the closing
    quote, parseline prints nothing and returns the text as the only
    argument (the text does not start with "&"). *)
Theorem parseline_quoted (q : ascii) (body : string) :
  is_quote q = true →
  has_char q body = false →
  has_char (ascii_of_nat 0) body = false →
  starts_with_amp body = false →
  parseline (String q (body +:+ String q ""))
  = ([], Some (0, {| argc := 1; argv := [body]; infile := None;
                     outfile := None; builtins := classify body |})).
Proof.
  intros Hq Hbody Hnul Hamp. unfold parseline.
  assert (has_char (ascii_of_nat 0) (String q (body +:+ String q "")) = false)
    as Hline.
  { simpl. rewrite has_char_app, Hnul. simpl.
    destruct (is_quote_cases q Hq) as [-> | ->]; reflexivity. }
  rewrite (c_string_id _ Hline).
  change (S (String.length (String q (body +:+ String q ""))))
    with (S (S (String.length (body +:+ String q "")))).
  rewrite parse_loop_S.
  assert (skip_delims (String q (body +:+ String q ""))
          = String q (body +:+ String q "")) as ->.
  { simpl. by destruct (is_quote_cases q Hq) as [-> | ->]. }
  assert ((q =? "<")%char = false ∧ (q =? ">")%char = false) as [-> ->].
  { by destruct (is_quote_cases q Hq) as [-> | ->]. }
  unfold next_token. rewrite Hq, (find_char_closing q body "" Hbody).
  unfold record_token. cbn [p_state p_argv p_infile p_outfile app].
  change (ST_NORMAL =? ST_NORMAL) with true. cbv iota.
  cbn [p_argv length]. change (MAXARGS - 1 <=? 1)%nat with false. cbv iota.
  cbn [advance]. rewrite parse_loop_S. cbn [skip_delims].
  cbn [p_state p_argv p_infile p_outfile].
  change (negb (ST_NORMAL =? ST_NORMAL)) with false. cbv iota.
  cbn [List.last]. by rewrite Hamp.
Qed.

(** ** The child that runs the program *)

(** X27: when its redirections can be set up, the child applies them,
    input first, puts itself into a process group of its own, unblocks the
    signals, restores the default action of SIGINT, SIGTSTP, SIGCHLD,
    SIGTTIN and SIGTTOU, and calls execve on the first argument.  If
    execve fails the child prints "Command not found." and exits with
    [EXIT_FAILURE]: it never returns into the shell. *)
Theorem eval_child_runs (tok : cmdline_tokens) (prog : string)
    (args : list string) :
  (∀ f, open f ≠ -1) →
  (∀ oldfd newfd, 0 ≤ newfd → 0 ≤ dup2 oldfd newfd) →
  argv tok = prog :: args →
  eval_child tok
  = ((match infile tok with Some f => [Dup2 (open f) 0] | None => [] end)
     ++ (match outfile tok with Some f => [Dup2 (open f) 1] | None => [] end)
     ++ [Setpgid; Unblock; SignalDfl SIGINT; SignalDfl SIGTSTP;
         SignalDfl SIGCHLD; SignalDfl SIGTTIN; SignalDfl SIGTTOU]
     ++ (if execve_fails prog (argv tok)
         then [Stderr (prog +:+ ": Command not found." +:+ NL)] else []),
     if execve_fails prog (argv tok) then Exited EXIT_FAILURE
     else Execed prog (argv tok)).
Proof.
  intros Hopen Hdup Hargv. unfold eval_child. rewrite Hargv. simpl.
  assert (∀ f, (open f =? -1) = false) as Ho.
  { intros f. apply Z.eqb_neq, Hopen. }
  assert (∀ a, (dup2 a 0 <? 0) = false) as Hd0.
  { intros a. apply Z.ltb_ge, Hdup. lia. }
  assert (∀ a, (dup2 a 1 <? 0) = false) as Hd1.
  { intros a. apply Z.ltb_ge, Hdup. lia. }
  destruct (infile tok) as [fi|], (outfile tok) as [fo|];
    rewrite ?Ho, ?Hd0, ?Hd1; simpl;
    destruct (execve_fails prog (prog :: args)); simpl;
    rewrite <- ?app_assoc; simpl; reflexivity.
Qed.

(** ** Job ids after the counter has wrapped *)

Lemma orderly_shell_run v g : orderly v g → shell_run v g.
Proof.
  clear atoi strerror_errno kill write open dup2 execve_fails.
  induction 1; [apply shell_startup|by apply shell_add|by apply shell_delete].
Qed.

(** The calls of the shell keep the foreground job and the pids apart,
    wherever the counter stands. *)
Lemma shell_run_inv v g :
  shell_run v g →
  table_ok g ∧ at_most_one_fg (job_list g) ∧ unique_live pid (job_list g).
Proof.
  clear atoi strerror_errno kill write open dup2 execve_fails.
  induction 1 as [|g p s c Hg IH Hpid Hfg|g p Hg IH].
  - split; [apply startup_ok|].
    assert (∀ R, pairwise_live R (job_list (startup v))) as Hnone.
    { intros R i k j1 j2 Hi. rewrite startup_jobs in Hi.
      apply lookup_replicate in Hi as [-> _]. by intros _ []. }
    split; apply Hnone.
  - destruct IH as (Hok & H1 & H3).
    split; [by apply addjob_ok|].
    destruct Hok as (Hlen & Hc & Hn).
    destruct (addjob_cases g p s c) as [->|(Hp & i & j & _ & _ & ->)]; [done|].
    simpl. split.
    + apply pairwise_live_insert; [tauto| |done].
      intros k j2 Hk _ [Hs Hs2]. simpl in Hs.
      by apply (fgpid_0_no_fg (job_list g) k j2 Hlen Hc (Hfg Hs) Hk).
    + apply pairwise_live_insert; [done| |done].
      intros k j2 Hk _ HR. simpl in HR.
      by apply (getjobpid_None_absent (job_list g) p k j2 Hlen Hp Hpid Hk).
  - destruct IH as (Hok & H1 & H3).
    split; [by apply deletejob_ok|].
    destruct (deletejob_cases g p) as [->|(Hp & i & j & _ & _ & ->)]; [done|].
    simpl. split; by apply pairwise_live_clear.
Qed.

(** A list of operations that [shell_ops] accepts is a run of the shell. *)
Lemma shell_ops_run v ops g :
  shell_run v g → shell_ops g ops = true → shell_run v (run ops g).
Proof.
  clear atoi strerror_errno kill write open dup2 execve_fails.
  revert g. induction ops as [|[p s c|p] ops IH]; intros g Hg; simpl; [done| |].
  - destruct (getjobpid (job_list g) p) eqn:Hpid; [discriminate|].
    intros [Hfg Hrest]%andb_true_iff. apply IH; [|done].
    apply shell_add; [done|done|].
    intros ->. change (FG =? FG) with true in Hfg. simpl in Hfg.
    by apply Z.eqb_eq.
  - intros Hrest. apply IH; [|done]. by apply shell_delete.
Qed.

(** C1, where the code departs from it.  The calls of the shell do keep
    at most one job in the foreground and the pids of the live entries
    pairwise different.  But addjob gives out the value of the counter
    without looking at the table, and after a job has been given the id
    [MAXJOBS] the counter is back at 1: in a table that the shell has
    built, whenever a live entry holds the job id at which the counter
    stands and a slot is empty, the next command, with a pid that is new
    to the table, leaves two live entries with the same job id. *)
Theorem wrapped_counter_reuses_jid (v : bool) (g : globals) (p s : Z)
    (c : string) (i k : nat) (j e : job_t) :
  shell_run v g →
  1 ≤ p → getjobpid (job_list g) p = None →
  (s = FG → fgpid (job_list g) = 0) →
  job_list g !! k = Some e → pid e = 0 →
  job_list g !! i = Some j → live j → jid j = nextjid g →
  let g' := snd (fst (addjob g p s c)) in
  shell_run v g' ∧
  at_most_one_fg (job_list g') ∧ unique_live pid (job_list g') ∧
  ¬ unique_live jid (job_list g').
Proof.
  clear atoi strerror_errno kill write open dup2 execve_fails.
  intros Hg Hp Hnew Hfg Hk He Hi Hlive Hjid g'.
  assert (shell_run v g') as Hg' by by apply shell_add.
  split; [done|].
  destruct (shell_run_inv v g' Hg') as (_ & Hone & Hpids).
  split; [done|]. split; [done|].
  destruct (shell_run_inv v g Hg) as ((Hlen & _) & _).
  destruct (addjob_succeeds g p s c k e Hlen Hp Hk He) as [g1 E].
  assert (g' = g1) as -> by (unfold g'; by rewrite E).
  apply addjob_success in E as (_ & i0 & j0 & Hi0 & Hp0 & _ & ->). simpl.
  intros Huniq.
  assert (i ≠ i0) as Hne.
  { intros ->. rewrite Hi in Hi0. injection Hi0 as ->. by destruct Hlive. }
  apply Hne.
  apply (Huniq i i0 j {| pid := p; jid := nextjid g; state := s; cmdline := c |}).
  - by rewrite list_lookup_insert_ne.
  - apply list_lookup_insert_eq. by eapply lookup_lt_Some.
  - done.
  - unfold live. simpl. lia.
  - done.
Qed.

End Shell.

(** ** The theorems at work on some runs *)

Ltac eval_jobs g :=
  let jl := eval vm_compute in (job_list g) in
  change (job_list g) with jl in *.

Ltac each_slot i H :=
  repeat (destruct i as [|i]; [injection H as <-; simpl; try lia; try done|]);
  try discriminate H.

(** A job id is given twice: after [clash_ops] slot 0 and slot 15 are both
    live with job id 1 (pids 101 and 117), although every pid of the run
    is different and no job is in the foreground. *)
Lemma jid_clash :
  ¬ unique_live jid (job_list (run own_group clash_ops (startup false))).
Proof.
  intros H.
  specialize (H 0%nat 15%nat
                {| pid := 101; jid := 1; state := BG; cmdline := "sleep 9 &" |}
                {| pid := 117; jid := 1; state := BG; cmdline := "sleep 9 &" |}
                eq_refl eq_refl).
  unfold live in H. simpl in H. specialize (H ltac:(lia) ltac:(lia) eq_refl).
  discriminate H.
Qed.

(** The counter passes the capacity: after [past_ops] it is 17. *)
Lemma nextjid_past_capacity :
  ¬ nextjid (run own_group past_ops (startup false)) ≤ Z.of_nat MAXJOBS.
Proof. vm_compute. intros H. by apply H. Qed.

(** A foreground entry is not listed with four spaces after its label. *)
Lemma foreground_line_differs :
  written STDOUT_FILENO
    (fst (listjobs write_ok
            (job_list (run own_group calm_ops (startup false))) STDOUT_FILENO))
  ≠ spec_listing (job_list (run own_group calm_ops (startup false))).
Proof. vm_compute. discriminate. Qed.

(** When a write fails, [listjobs] reports it and exits with status 1. *)
Lemma listjobs_write_failure :
  listjobs (λ _ _ _, -1) (job_list (run own_group two_ops (startup false)))
    STDOUT_FILENO
  = ([Stderr ("Error writing to output file" +:+ NL)], Exited 1).
Proof. reflexivity. Qed.

(** [addjob] on the empty table, with pid 0, and on a full table. *)
Lemma addjob_spec_witness :
  length (job_list (startup false)) = MAXJOBS ∧
  fst (addjob own_group (startup false) 100 BG "sleep 9 &")
  = (1, {| verbose := false; nextjid := 2;
           job_list := <[0%nat := {| pid := 100; jid := 1; state := BG;
                                     cmdline := "sleep 9 &" |}]>
                         (job_list (startup false)) |}) ∧
  addjob own_group (run own_group past_ops (startup false)) 0 BG "sleep 9 &"
  = (0, run own_group past_ops (startup false), []) ∧
  addjob own_group (run own_group (fifteen ++ [bg_job 116]) (startup false))
    117 BG "sleep 9 &"
  = (0, run own_group (fifteen ++ [bg_job 116]) (startup false),
     [Stdout ("Tried to create too many jobs" +:+ NL)]).
Proof.
  split; [reflexivity|]. split; [|split].
  - destruct (addjob_spec own_group (startup false) 100 BG "sleep 9 &" eq_refl)
      as (_ & H & _).
    apply (H ltac:(lia) 0%nat (clearjob zero_job));
      [reflexivity|reflexivity|intros; lia].
  - destruct (addjob_spec own_group (run own_group past_ops (startup false))
                0 BG "sleep 9 &" eq_refl) as (H & _).
    apply H. lia.
  - destruct (addjob_spec own_group
                (run own_group (fifteen ++ [bg_job 116]) (startup false))
                117 BG "sleep 9 &" eq_refl) as (_ & _ & H).
    apply H; [lia|]. intros i j Hj.
    eval_jobs (run own_group (fifteen ++ [bg_job 116]) (startup false)).
    each_slot i Hj.
Defined.

(** [deletejob] of the background job of [two_ops]. *)
Lemma deletejob_spec_witness :
  length (job_list (run own_group two_ops (startup false))) = MAXJOBS ∧
  deletejob (run own_group two_ops (startup false)) 101
  = (1, {| verbose := false; nextjid := 2;
           job_list := <[1%nat := clearjob zero_job]>
                         (job_list (run own_group two_ops (startup false))) |}).
Proof.
  split; [reflexivity|].
  refine (proj1 (deletejob_spec (run own_group two_ops (startup false)) 101 1%nat
                   {| pid := 101; jid := 2; state := BG; cmdline := "sleep 9 &" |}
                   eq_refl _ ltac:(lia) eq_refl eq_refl _)).
  - intros k Hk Hz.
    apply list_elem_of_lookup in Hk as [i Hi].
    eval_jobs (run own_group two_ops (startup false)).
    each_slot i Hi.
  - intros m j' Hm Hj'.
    eval_jobs (run own_group two_ops (startup false)).
    destruct m as [|m]; [|lia]. injection Hj' as <-. simpl. lia.
Defined.

(** [deletejob] of a pid that is not in the table, and of a negative one. *)
Lemma deletejob_absent_witness :
  deletejob (run own_group two_ops (startup false)) 7
  = (0, run own_group two_ops (startup false)) ∧
  deletejob (run own_group two_ops (startup false)) (-101)
  = (0, run own_group two_ops (startup false)).
Proof.
  split; apply deletejob_absent.
  - right. intros i j Hj.
    eval_jobs (run own_group two_ops (startup false)).
    each_slot i Hj.
  - left. lia.
Defined.

(** The sixteenth add wraps the counter to 1; the removal after it sets
    the counter from the job ids that are left. *)
Lemma nextjid_after_witness :
  nextjid (run own_group (fifteen ++ [bg_job 116]) (startup false)) = 1 ∧
  nextjid (run own_group past_ops (startup false))
  = max_live_jid (job_list (run own_group past_ops (startup false))) + 1.
Proof.
  split.
  - destruct (nextjid_after own_group fifteen false 116 BG "sleep 9 &")
      as (_ & H & _).
    assert (fst (addjob own_group (run own_group fifteen (startup false))
                   116 BG "sleep 9 &")
            = (1, run own_group (fifteen ++ [bg_job 116]) (startup false))) as E
      by (vm_compute; reflexivity).
    destruct (H _ E) as (_ & Hwrap & _).
    apply Hwrap. vm_compute. reflexivity.
  - destruct (nextjid_after own_group (fifteen ++ [bg_job 116]) false 101 BG "")
      as (_ & _ & H).
    apply (H (run own_group past_ops (startup false))).
    vm_compute. reflexivity.
Defined.

(** The listing of the table of [calm_ops] on the standard output. *)
Lemma listjobs_spec_witness :
  length (job_list (run own_group calm_ops (startup false))) = MAXJOBS ∧
  (∀ tr fd buf, 0 ≤ write_ok tr fd buf) ∧
  written STDOUT_FILENO
    (fst (listjobs write_ok
            (job_list (run own_group calm_ops (startup false))) STDOUT_FILENO))
  = "[3] (102) Foreground ls -l" +:+ NL
    +:+ "[2] (101) Running    sleep 9 &" +:+ NL.
Proof.
  assert (∀ tr fd buf, 0 ≤ write_ok tr fd buf) as Hw.
  { intros tr fd buf. unfold write_ok. lia. }
  split; [reflexivity|]. split; [exact Hw|].
  destruct (listjobs_spec write_ok
              (job_list (run own_group calm_ops (startup false)))
              STDOUT_FILENO eq_refl Hw) as ((tr & E & Htext & _) & _).
  rewrite E. simpl. rewrite Htext. reflexivity.
Defined.

(** ctrl-c with no job in the foreground, ctrl-z with pid 100 in it. *)
Lemma forwarders_spec_witness :
  sigint_handler ENOENT_text kill_ok (startup false)
  = (startup false, [], Returned) ∧
  sigtstp_handler ENOENT_text kill_ok (run own_group two_ops (startup false))
  = (run own_group two_ops (startup false), [Kill (-100) SIGTSTP], Returned).
Proof.
  split.
  - destruct (forwarders_spec ENOENT_text kill_ok (startup false)) as (H & _).
    apply H. reflexivity.
  - destruct (forwarders_spec ENOENT_text kill_ok
                (run own_group two_ops (startup false))) as (_ & H & _).
    destruct H as [_ H]; [vm_compute; discriminate|]. exact H.
Defined.

(** The handler is told that the foreground job of [two_ops] has been
    stopped by signal 20 and that its background job has been killed by
    signal 9; or it is told of a pid that is not in the table. *)
Lemma sigchld_handler_spec_witness :
  sigchld_handler ENOENT_text (run own_group two_ops (startup false))
    [(100, WStopped 20); (101, WSignaled 9)] 0 false
  = ({| verbose := false; nextjid := 2;
        job_list :=
          {| pid := 100; jid := 1; state := ST; cmdline := "vi notes" |}
          :: replicate 15 {| pid := 0; jid := 0; state := UNDEF; cmdline := "" |} |},
     [Stdout ("Job [1] (100) stopped by signal 20" +:+ NL);
      Stdout ("Job [2] (101) terminated by signal 9" +:+ NL)],
     Returned) ∧
  sigchld_handler ENOENT_text (run own_group two_ops (startup false))
    [(555, WExited 0); (100, WExited 0)] 0 false
  = (run own_group two_ops (startup false),
     [Stdout ("sigchld getjobpid error" +:+ NL)], Exited 1).
Proof.
  split.
  - pose proof (sigchld_handler_spec ENOENT_text
                  (run own_group two_ops (startup false)) 100 (WStopped 20)
                  [(101, WSignaled 9)] 0 false ltac:(lia)) as H.
    cbv zeta in H.
    change (getjobpid (job_list (run own_group two_ops (startup false))) 100)
      with (Some 0%nat) in H.
    destruct H as (job & Hjob & _ & H). injection Hjob as <-.
    rewrite H. vm_compute. reflexivity.
  - exact (sigchld_handler_spec ENOENT_text
             (run own_group two_ops (startup false)) 555 (WExited 0)
             [(100, WExited 0)] 0 false ltac:(lia)).
Defined.

(** [bg %5] on the empty table and [fg 999] on the table of [two_ops]. *)
Lemma no_such_job_faults_witness :
  eval_bg (atoi_digits 0) (startup false)
    {| argc := 2; argv := ["bg"; "%5"]; infile := None; outfile := None;
       builtins := BUILTIN_BG |}
  = (startup false, [Stderr ("No Such Job" +:+ NL)], Fault) ∧
  eval_fg (atoi_digits 0) (run own_group two_ops (startup false))
    {| argc := 2; argv := ["fg"; "999"]; infile := None; outfile := None;
       builtins := BUILTIN_FG |}
  = (run own_group two_ops (startup false),
     [Stderr ("No Such Job" +:+ NL)], Fault).
Proof.
  split.
  - apply (no_such_job_faults (atoi_digits 0) (startup false) _ "%5");
      reflexivity.
  - apply (no_such_job_faults (atoi_digits 0)
             (run own_group two_ops (startup false)) _ "999"); reflexivity.
Defined.

(** [/bin/ls < /nonexistent] in the child. *)
Lemma child_open_failure_returns_witness :
  eval_child ENOENT_text open_fails dup2_ok execve_ok
    {| argc := 1; argv := ["/bin/ls"]; infile := Some "/nonexistent";
       outfile := None; builtins := BUILTIN_NONE |}
  = ([Stderr ("Input Error: No such file or directory" +:+ NL)], Returned).
Proof.
  destruct (child_open_failure_returns ENOENT_text open_fails dup2_ok execve_ok
              {| argc := 1; argv := ["/bin/ls"]; infile := Some "/nonexistent";
                 outfile := None; builtins := BUILTIN_NONE |}
              "/nonexistent" eq_refl (or_introl eq_refl)) as (Hout & _).
  destruct (eval_child _ _ _ _ _) as [tr o] eqn:E. simpl in Hout. subst o.
  vm_compute in E. injection E as <-. reflexivity.
Defined.

(** ** More of the theorems at work *)

(** The table of [two_ops], and the same table once its foreground job has
    been stopped. *)
Lemma two_ops_table :
  job_list (run own_group two_ops (startup false))
  = {| pid := 100; jid := 1; state := FG; cmdline := "vi notes" |}
    :: {| pid := 101; jid := 2; state := BG; cmdline := "sleep 9 &" |}
    :: replicate 14 {| pid := 0; jid := 0; state := UNDEF; cmdline := "" |}.
Proof. reflexivity. Qed.

Lemma two_ops_orderly : orderly own_group false (run own_group two_ops (startup false)).
Proof.
  pose proof (orderly_startup own_group false) as H0.
  pose proof (orderly_add own_group false _ 100 FG "vi notes" H0
                eq_refl (λ _, eq_refl) eq_refl) as H1.
  exact (orderly_add own_group false _ 101 BG "sleep 9 &" H1
           eq_refl (λ E : BG = FG, ltac:(discriminate E)) eq_refl).
Qed.

Ltac slots m H :=
  rewrite two_ops_table in H; each_slot m H.

Lemma getjobpid_spec_witness :
  length (job_list (run own_group two_ops (startup false))) = MAXJOBS ∧
  getjobpid (job_list (run own_group two_ops (startup false))) 101 = Some 1%nat ∧
  getjobpid (job_list (run own_group two_ops (startup false))) 7 = None.
Proof.
  split; [reflexivity|]. split.
  - apply (getjobpid_spec (job_list (run own_group two_ops (startup false))) 101 eq_refl). split; [lia|].
    eexists. split; [reflexivity|]. split; [reflexivity|].
    intros m j' Hm Hj'. slots m Hj'.
  - apply (getjobpid_spec (job_list (run own_group two_ops (startup false))) 7 eq_refl). right. intros m j' Hj'. slots m Hj'.
Defined.

Lemma getjobjid_spec_witness :
  length (job_list (run own_group two_ops (startup false))) = MAXJOBS ∧
  getjobjid (job_list (run own_group two_ops (startup false))) 2 = Some 1%nat ∧
  getjobjid (job_list (run own_group two_ops (startup false))) 9 = None.
Proof.
  split; [reflexivity|]. split.
  - apply (getjobjid_spec (job_list (run own_group two_ops (startup false))) 2 eq_refl). split; [lia|].
    eexists. split; [reflexivity|]. split; [reflexivity|].
    intros m j' Hm Hj'. slots m Hj'.
  - apply (getjobjid_spec (job_list (run own_group two_ops (startup false))) 9 eq_refl). right. intros m j' Hj'. slots m Hj'.
Defined.

Lemma pid2jid_spec_witness :
  length (job_list (run own_group two_ops (startup false))) = MAXJOBS ∧
  pid2jid (job_list (run own_group two_ops (startup false))) 101 = 2 ∧
  pid2jid (job_list (run own_group two_ops (startup false))) 0 = 0.
Proof.
  split; [reflexivity|].
  destruct (pid2jid_spec (job_list (run own_group two_ops (startup false))) 101
              eq_refl) as [H _].
  destruct (pid2jid_spec (job_list (run own_group two_ops (startup false))) 0
              eq_refl) as [_ H0].
  split.
  - apply (H 1%nat {| pid := 101; jid := 2; state := BG; cmdline := "sleep 9 &" |});
      [lia|reflexivity|reflexivity|].
    intros m j' Hm Hj'. slots m Hj'.
  - apply H0. left. lia.
Defined.

Lemma fgpid_spec_witness :
  length (job_list (run own_group two_ops (startup false))) = MAXJOBS ∧
  fgpid (job_list (run own_group two_ops (startup false))) = 100 ∧
  fgpid (job_list (startup false)) = 0.
Proof.
  split; [reflexivity|]. split.
  - destruct (fgpid_spec (job_list (run own_group two_ops (startup false)))
                eq_refl) as [H _].
    apply (H 0%nat {| pid := 100; jid := 1; state := FG; cmdline := "vi notes" |});
      [reflexivity|reflexivity|]. intros m j' Hm. lia.
  - destruct (fgpid_spec (job_list (startup false)) eq_refl) as (_ & H & _).
    apply H. intros m j' Hj'. rewrite startup_jobs in Hj'.
    apply lookup_replicate in Hj' as [-> _]. discriminate.
Defined.

Lemma addjob_then_lookup_witness :
  pid2jid
    (job_list (snd (fst (addjob own_group (run own_group two_ops (startup false))
                           102 BG "ls &"))))
    102 = 3.
Proof.
  assert (fst (addjob own_group (run own_group two_ops (startup false))
                 102 BG "ls &")
          = (1, snd (fst (addjob own_group (run own_group two_ops (startup false))
                            102 BG "ls &")))) as Hadd by reflexivity.
  destruct (addjob_then_lookup own_group (run own_group two_ops (startup false)) _ 102 BG "ls &" eq_refl eq_refl Hadd)
    as (_ & H & _).
  exact H.
Defined.

Lemma deletejob_then_lookup_witness :
  getjobpid (job_list (snd (deletejob (run own_group two_ops (startup false)) 100)))
    100 = None ∧
  getjobpid (job_list (snd (deletejob (run own_group two_ops (startup false)) 100)))
    101 = Some 1%nat.
Proof.
  assert (deletejob (run own_group two_ops (startup false)) 100
          = (1, snd (deletejob (run own_group two_ops (startup false)) 100)))
    as Hdel by reflexivity.
  destruct (orderly_inv own_group false (run own_group two_ops (startup false)) two_ops_orderly) as (_ & _ & _ & Hu).
  destruct (deletejob_then_lookup (run own_group two_ops (startup false)) _ 100 eq_refl Hu Hdel) as (H & _ & Hother).
  split; [exact H|].
  destruct (Hother 101 ltac:(lia)) as [-> _]. reflexivity.
Defined.

Lemma initjobs_clears_witness :
  initjobs (job_list (run own_group two_ops (startup false)))
  = job_list (startup false).
Proof.
  destruct (initjobs_clears (job_list (run own_group two_ops (startup false)))
              eq_refl) as [-> _].
  reflexivity.
Defined.

Lemma maxjid_spec_witness :
  length (job_list (run own_group two_ops (startup false))) = MAXJOBS ∧
  0 ≤ maxjid (job_list (run own_group two_ops (startup false))).
Proof.
  split; [reflexivity|].
  exact (proj1 (maxjid_spec (job_list (run own_group two_ops (startup false)))
                  eq_refl)).
Defined.

Lemma live_count_changes_witness :
  live_count
    (job_list (snd (fst (addjob own_group (run own_group two_ops (startup false))
                           102 BG "ls &"))))
  = 3%nat ∧
  live_count (job_list (snd (deletejob (run own_group two_ops (startup false)) 100)))
  = 1%nat.
Proof.
  destruct (live_count_changes own_group (run own_group two_ops (startup false))
              eq_refl) as (_ & Hadd & Hdel).
  split.
  - exact (Hadd 102 BG "ls &" _ eq_refl).
  - apply (f_equal Nat.pred (Hdel 100 _ eq_refl)).
Defined.


Lemma sigchld_handler_keeps_witness :
  table_ok
    (fst (fst (sigchld_handler ENOENT_text (run own_group two_ops (startup false))
                 [(100, WStopped 20); (101, WExited 0)] (-1) true))).
Proof.
  exact (proj1 (sigchld_handler_keeps ENOENT_text
                  (run own_group two_ops (startup false))
                  [(100, WStopped 20); (101, WExited 0)] (-1) true
                  (run_ok own_group two_ops false))).
Defined.

Lemma reap_releases_foreground_witness :
  fgpid (job_list (run own_group two_ops (startup false))) = 100 ∧
  fgpid (job_list (fst (fst (reap_child (run own_group two_ops (startup false))
                               100 (WStopped 20))))) = 0.
Proof.
  split; [reflexivity|].
  destruct (orderly_inv own_group false (run own_group two_ops (startup false))
              two_ops_orderly) as ((_ & Hc & _) & Hfg & _ & Hu).
  apply (reap_releases_foreground (run own_group two_ops (startup false)) 100
           (WStopped 20) eq_refl Hc Hfg Hu); [lia|reflexivity|discriminate].
Defined.

Lemma reap_twice_exits_witness :
  reap_child
    (fst (fst (reap_child (run own_group two_ops (startup false)) 101 (WExited 0))))
    101 (WExited 0)
  = (fst (fst (reap_child (run own_group two_ops (startup false)) 101 (WExited 0))),
     [Stdout ("sigchld getjobpid error" +:+ NL)], Exited 1).
Proof.
  destruct (orderly_inv own_group false (run own_group two_ops (startup false))
              two_ops_orderly) as (_ & _ & _ & Hu).
  exact (proj2 (reap_twice_exits (run own_group two_ops (startup false)) 101
                  (WExited 0) (WExited 0) 1%nat eq_refl Hu eq_refl
                  (or_introl eq_refl))).
Defined.

Lemma eval_bg_resumes_witness :
  snd (fst (eval_bg (atoi_digits 0)
              (run own_group [Add 100 ST "vi notes"] (startup false))
              {| argc := 2; argv := ["bg"; "%1"]; infile := None;
                 outfile := None; builtins := BUILTIN_BG |}))
  = [Stdout "[1] (100) vi notes"; Kill (-100) SIGCONT].
Proof.
  rewrite (eval_bg_resumes (atoi_digits 0)
             (run own_group [Add 100 ST "vi notes"] (startup false))
             {| argc := 2; argv := ["bg"; "%1"]; infile := None;
                outfile := None; builtins := BUILTIN_BG |}
             "%1" 0%nat
             {| pid := 100; jid := 1; state := ST; cmdline := "vi notes" |}
             eq_refl eq_refl eq_refl eq_refl eq_refl).
  reflexivity.
Defined.

Lemma eval_fg_waits_witness :
  snd (eval_fg (atoi_digits 0)
         (run own_group [Add 100 ST "vi notes"] (startup false))
         {| argc := 2; argv := ["fg"; "100"]; infile := None;
            outfile := None; builtins := BUILTIN_FG |})
  = Spin.
Proof.
  destruct (run_ok own_group [Add 100 ST "vi notes"] false) as (_ & Hc & _).
  rewrite (eval_fg_waits (atoi_digits 0)
             (run own_group [Add 100 ST "vi notes"] (startup false))
             {| argc := 2; argv := ["fg"; "100"]; infile := None;
                outfile := None; builtins := BUILTIN_FG |}
             "100" 0%nat
             {| pid := 100; jid := 1; state := ST; cmdline := "vi notes" |}
             eq_refl Hc eq_refl eq_refl eq_refl eq_refl eq_refl).
  reflexivity.
Defined.

Lemma launch_background_witness :
  snd (launch own_group ENOENT_text open_fails dup2_ok execve_ok
         (run own_group two_ops (startup false))
         {| argc := 2; argv := ["sleep"; "5"]; infile := None;
            outfile := None; builtins := BUILTIN_NONE |}
         1 "sleep 5 &" 102)
  = Returned.
Proof.
  destruct (launch_background own_group ENOENT_text open_fails dup2_ok execve_ok
              (run own_group two_ops (startup false))
              {| argc := 2; argv := ["sleep"; "5"]; infile := None;
                 outfile := None; builtins := BUILTIN_NONE |}
              1 102 "sleep 5 &" 2%nat
              {| pid := 0; jid := 0; state := UNDEF; cmdline := "" |}
              eq_refl ltac:(lia) ltac:(lia) eq_refl eq_refl eq_refl)
    as (g' & i & _ & _ & ->).
  reflexivity.
Defined.

Lemma launch_table_full_witness :
  reap_child (run own_group (bg_job 100 :: fifteen) (startup false)) 200 (WExited 0)
  = (run own_group (bg_job 100 :: fifteen) (startup false),
     [Stdout ("sigchld getjobpid error" +:+ NL)], Exited 1).
Proof.
  assert (∀ m j, job_list (run own_group (bg_job 100 :: fifteen) (startup false)) !! m
                 = Some j → pid j ≠ 0) as Hfull.
  { intros m j Hj.
    assert (job_list (run own_group (bg_job 100 :: fifteen) (startup false))
            = (λ p, {| pid := p; jid := p - 99; state := BG;
                       cmdline := "sleep 9 &" |})
              <$> [100; 101; 102; 103; 104; 105; 106; 107; 108; 109; 110; 111;
                   112; 113; 114; 115]) as E by (vm_compute; reflexivity).
    rewrite E in Hj. each_slot m Hj. }
  assert (getjobpid (job_list (run own_group (bg_job 100 :: fifteen) (startup false)))
            200 = None) as Hnone by (vm_compute; reflexivity).
  exact (proj2 (launch_table_full own_group ENOENT_text open_fails dup2_ok
                  execve_ok (run own_group (bg_job 100 :: fifteen) (startup false))
                  {| argc := 1; argv := ["ls"]; infile := None;
                     outfile := None; builtins := BUILTIN_NONE |}
                  1 200 "ls &" ltac:(lia) Hfull Hnone) (WExited 0)).
Defined.

Lemma launch_foreground_waits_witness :
  snd (launch own_group ENOENT_text open_fails dup2_ok execve_ok (startup false)
         {| argc := 1; argv := ["ls"]; infile := None;
            outfile := None; builtins := BUILTIN_NONE |}
         0 "ls" 100)
  = Spin.
Proof.
  destruct (startup_ok false) as (_ & Hc & _).
  destruct (launch_foreground_waits own_group ENOENT_text open_fails dup2_ok
              execve_ok (startup false)
              {| argc := 1; argv := ["ls"]; infile := None;
                 outfile := None; builtins := BUILTIN_NONE |}
              100 "ls" 0%nat
              {| pid := 0; jid := 0; state := UNDEF; cmdline := "" |}
              eq_refl Hc ltac:(lia) eq_refl eq_refl)
    as (g' & _ & ->).
  reflexivity.
Defined.

Lemma eval_jobs_spec_witness :
  eval_jobs ENOENT_text write_ok open_fails (run own_group two_ops (startup false))
    {| argc := 1; argv := ["jobs"]; infile := None;
       outfile := Some "/nonexistent/out"; builtins := BUILTIN_JOBS |}
  = (run own_group two_ops (startup false),
     [perror ENOENT_text "jobs output error"], Returned) ∧
  written 3
    (snd (fst (eval_jobs ENOENT_text write_ok open_ok
                 (run own_group two_ops (startup false))
                 {| argc := 1; argv := ["jobs"]; infile := None;
                    outfile := Some "out"; builtins := BUILTIN_JOBS |})))
  = listing (job_list (run own_group two_ops (startup false))).
Proof.
  assert (∀ tr fd buf, 0 ≤ write_ok tr fd buf) as Hw
    by (intros; unfold write_ok; lia).
  split.
  - destruct (eval_jobs_spec ENOENT_text write_ok open_fails
                (run own_group two_ops (startup false))
                {| argc := 1; argv := ["jobs"]; infile := None;
                   outfile := Some "/nonexistent/out"; builtins := BUILTIN_JOBS |}
                eq_refl Hw) as (_ & H & _).
    exact (H "/nonexistent/out" eq_refl eq_refl).
  - destruct (eval_jobs_spec ENOENT_text write_ok open_ok
                (run own_group two_ops (startup false))
                {| argc := 1; argv := ["jobs"]; infile := None;
                   outfile := Some "out"; builtins := BUILTIN_JOBS |}
                eq_refl Hw) as (_ & _ & H).
    destruct (H "out" eq_refl ltac:(discriminate)) as (tr & -> & Hwr & _).
    exact Hwr.
Defined.

Lemma parseline_builtins_witness :
  parseline "jobs > out"
  = ([], Some (0, {| argc := 1; argv := ["jobs"]; infile := None;
                     outfile := Some "out"; builtins := BUILTIN_JOBS |})) ∧
  (BUILTIN_JOBS = BUILTIN_JOBS ↔ "jobs" = "jobs").
Proof.
  assert (parseline "jobs > out"
          = ([], Some (0, {| argc := 1; argv := ["jobs"]; infile := None;
                             outfile := Some "out"; builtins := BUILTIN_JOBS |})))
    as E by (vm_compute; reflexivity).
  split; [exact E|].
  destruct (parseline_builtins "jobs > out" [] 0 _ "jobs" [] E eq_refl)
    as (_ & H & _).
  exact H.
Defined.

Lemma eval_exit_causes_witness :
  snd (eval own_group (atoi_digits 0) ENOENT_text write_ok open_fails dup2_ok
         execve_ok (startup false) "ls" 1 (-1))
  = Exited 1 ∧
  eval own_group (atoi_digits 0) ENOENT_text write_ok open_fails dup2_ok
    execve_ok (run own_group two_ops (startup false)) "quit" 1 200
  = (run own_group two_ops (startup false),
     [Kill 1 SIGQUIT;
      Stdout ("Terminating after receipt of SIGQUIT signal" +:+ NL)],
     Exited 1).
Proof.
  split.
  - vm_compute. reflexivity.
  - destruct (eval_exit_causes own_group (atoi_digits 0) ENOENT_text write_ok
                open_fails dup2_ok execve_ok
                (run own_group two_ops (startup false)) "quit" 1 200
                ltac:(lia)) as [_ H].
    exact (H 0 {| argc := 1; argv := ["quit"]; infile := None; outfile := None;
                  builtins := BUILTIN_QUIT |} [] eq_refl eq_refl).
Defined.

Lemma parseline_plain_witness :
  plain (c_string "sleep 5 &") = true ∧
  ∃ bg tok, parseline "sleep 5 &" = ([], Some (bg, tok)) ∧
            infile tok = None ∧ outfile tok = None.
Proof.
  split; [reflexivity|].
  destruct (parseline_plain "sleep 5 &" eq_refl) as (bg & tok & H & Hi & Ho & _).
  by exists bg, tok.
Defined.

Lemma parseline_quoted_witness :
  parseline "'a < b'"
  = ([], Some (0, {| argc := 1; argv := ["a < b"]; infile := None;
                     outfile := None; builtins := BUILTIN_NONE |})).
Proof.
  exact (parseline_quoted "'" "a < b" eq_refl eq_refl eq_refl eq_refl).
Defined.

Lemma eval_child_runs_witness :
  snd (eval_child ENOENT_text open_ok dup2_ok execve_ok
         {| argc := 2; argv := ["/bin/ls"; "-l"]; infile := None;
            outfile := Some "out"; builtins := BUILTIN_NONE |})
  = Execed "/bin/ls" ["/bin/ls"; "-l"].
Proof.
  rewrite (eval_child_runs ENOENT_text open_ok dup2_ok execve_ok
             {| argc := 2; argv := ["/bin/ls"; "-l"]; infile := None;
                outfile := Some "out"; builtins := BUILTIN_NONE |}
             "/bin/ls" ["-l"]
             ltac:(discriminate)
             ltac:(intros oldfd newfd Hfd; exact Hfd)
             eq_refl).
  reflexivity.
Defined.


(** Seventeen commands: after the sixteen of [session_ops] three jobs are
    live, with the job ids 1, 16 and 15, and the counter is back at 1;
    the seventeenth command is given the job id 1 of the first job, which
    is still running. *)
Lemma wrapped_counter_reuses_jid_witness :
  shell_run own_group false
    (snd (fst (addjob own_group (run own_group session_ops (startup false))
                 117 BG "sleep 9 &"))) ∧
  jid <$> filter live
            (job_list
               (snd (fst (addjob own_group
                            (run own_group session_ops (startup false))
                            117 BG "sleep 9 &"))))
  = [1; 16; 15; 1] ∧
  ¬ unique_live jid
      (job_list
         (snd (fst (addjob own_group (run own_group session_ops (startup false))
                      117 BG "sleep 9 &")))).
Proof.
  assert (shell_run own_group false (run own_group session_ops (startup false)))
    as Hrun.
  { apply shell_ops_run; [apply shell_startup|]. vm_compute. reflexivity. }
  assert (job_list (run own_group session_ops (startup false))
          = {| pid := 101; jid := 1; state := BG; cmdline := "sleep 9 &" |}
            :: {| pid := 116; jid := 16; state := BG; cmdline := "sleep 9 &" |}
            :: {| pid := 115; jid := 15; state := BG; cmdline := "sleep 9 &" |}
            :: replicate 13 {| pid := 0; jid := 0; state := UNDEF; cmdline := "" |})
    as Htable by (vm_compute; reflexivity).
  assert (getjobpid (job_list (run own_group session_ops (startup false))) 117
          = None) as Hnew by (vm_compute; reflexivity).
  assert (nextjid (run own_group session_ops (startup false)) = 1) as Hnext
    by (vm_compute; reflexivity).
  assert (job_list (run own_group session_ops (startup false)) !! 3%nat
          = Some {| pid := 0; jid := 0; state := UNDEF; cmdline := "" |}) as Hk
    by (rewrite Htable; reflexivity).
  assert (job_list (run own_group session_ops (startup false)) !! 0%nat
          = Some {| pid := 101; jid := 1; state := BG; cmdline := "sleep 9 &" |})
    as Hi by (rewrite Htable; reflexivity).
  assert (live {| pid := 101; jid := 1; state := BG; cmdline := "sleep 9 &" |})
    as Hlive by (unfold live; simpl; lia).
  assert (jid {| pid := 101; jid := 1; state := BG; cmdline := "sleep 9 &" |}
          = nextjid (run own_group session_ops (startup false))) as Hjid
    by (rewrite Hnext; reflexivity).
  destruct (wrapped_counter_reuses_jid own_group false
              (run own_group session_ops (startup false)) 117 BG "sleep 9 &"
              0%nat 3%nat
              {| pid := 101; jid := 1; state := BG; cmdline := "sleep 9 &" |}
              {| pid := 0; jid := 0; state := UNDEF; cmdline := "" |}
              Hrun ltac:(lia) Hnew ltac:(discriminate) Hk eq_refl Hi Hlive Hjid)
    as (H1 & _ & _ & H2).
  split; [exact H1|]. split; [vm_compute; reflexivity|exact H2].
Defined.
